(** * disputils.pagination: footer formatting, list chunking and the
      reaction-driven navigation session of [EmbedPaginator].

    The Python objects the code mutates (embeds, lists) live in an explicit
    store; a Python reference is an index into it.  Functions that mutate
    or allocate take the store and return the new one. *)

From Stdlib Require Import ZArith String DecimalString.
From stdpp Require Import base numbers option list strings gmap.

Local Open Scope Z_scope.
Local Open Scope nat_scope.

(** ** The object store *)

Module Store.

(** A reference to a Python object: its position in the store. *)
Abbreviation loc := nat (only parsing).

(** Objects are only ever added at the end, never freed. *)
Abbreviation heap T := (list T) (only parsing).

Section heap.
Context {T : Type} `{!Inhabited T}.

(** Creating a new object gives a reference no one else holds. *)
Definition alloc (v : T) (h : heap T) : loc * heap T := (length h, h ++ [v]).

(** Reading through a reference. *)
Definition deref (h : heap T) (r : loc) : T := h !!! r.

(** In-place mutation of the object behind a reference. *)
Definition update (r : loc) (v : T) (h : heap T) : heap T := <[r := v]> h.
End heap.

End Store.
Import Store.

(** ** [EmbedPaginator.generate_sub_lists] *)

Module Chunker.

Section chunk.
Context {A : Type}.

(** The end of the slice [l[:k]] for a list of length [n]: Python clamps
    a non-negative bound to [n] and counts a negative one from the end,
    clamped at zero. *)
Definition slice_stop (k : Z) (n : nat) : nat :=
  if bool_decide (0 <= k)%Z then Z.to_nat k `min` n
  else Z.to_nat (Z.of_nat n + k).

(** [origin_list[:max_len]], a new list. *)
Definition slice_to (k : Z) (l : list A) : list A :=
  take (slice_stop k (length l)) l.

(** What is left of the list after [del origin_list[:max_len]]. *)
Definition del_to (k : Z) (l : list A) : list A :=
  drop (slice_stop k (length l)) l.

(** [len(origin_list) > max_len] *)
Definition longer_than (max_len : Z) (l : list A) : bool :=
  bool_decide (max_len < Z.of_nat (length l))%Z.

(** The [while] loop.  [origin_list] is the caller's list object and is
    shortened in place; every slice is a new object; [sub_lists] holds
    references.  One unit of fuel pays for one iteration and [None]
    means the fuel ran out before the loop condition became false. *)
Fixpoint chunk_loop (fuel : nat) (max_len : Z) (origin_list : loc)
    (sub_lists : list loc) (h : heap (list A))
    : option (list loc * heap (list A)) :=
  let l := deref h origin_list in
  if longer_than max_len l then
    match fuel with
    | O => None
    | S fuel' =>
        let '(s, h1) := alloc (slice_to max_len l) h in
        let h2 := update origin_list (del_to max_len l) h1 in
        chunk_loop fuel' max_len origin_list (sub_lists ++ [s]) h2
    end
  else Some (sub_lists ++ [origin_list], h).

Definition generate_sub_lists (fuel : nat) (h : heap (list A))
    (origin_list : loc) (max_len : Z)
    : option (list loc * heap (list A)) :=
  if longer_than max_len (deref h origin_list) then
    chunk_loop fuel max_len origin_list [] h
  else Some ([origin_list], h).

(** The lists a result refers to, read in the store the call left. *)
Definition contents (h : heap (list A)) (refs : list loc)
    : list (list A) :=
  deref h <$> refs.
End chunk.

End Chunker.

(** ** The embeds of the chat SDK *)

Module Embeds.

(** An embed's footer; [None] stands for [discord.Embed.Empty]. *)
Record Footer := { text : option string; icon_url : option string }.

(** A [discord.Embed]: the footer, which the paginator rewrites, and the
    rest of the content, which it copies and passes on. *)
Record Embed := { title : string; description : string; footer : Footer }.

Definition empty_footer : Footer := {| text := None; icon_url := None |}.

#[export] Instance Embed_inhabited : Inhabited Embed :=
  populate {| title := ""; description := ""; footer := empty_footer |}.

(** discord.py's [Embed.set_footer], whose keyword arguments [text] and
    [icon_url] default to [Empty]: the footer is replaced by one holding
    exactly the fields passed. *)
Definition set_footer (text icon_url : option string) (e : Embed) : Embed :=
  {| title := title e; description := description e;
     footer := {| text := text; icon_url := icon_url |} |}.

End Embeds.
Import Embeds.

(** ** [EmbedPaginator.formatted_pages] *)

Module Formatter.

(** [copy.deepcopy] of a list of embeds. Its memo maps every object
    already copied to its copy, so an embed that occurs twice in the list
    is copied once and the copy occurs twice. *)
Fixpoint deepcopy_memo (memo : gmap nat nat) (pages : list loc)
    (h : heap Embed) : list loc * heap Embed :=
  match pages with
  | [] => ([], h)
  | page :: rest =>
      match memo !! page with
      | Some copy =>
          let '(out, h') := deepcopy_memo memo rest h in (copy :: out, h')
      | None =>
          let '(copy, h1) := alloc (deref h page) h in
          let '(out, h') := deepcopy_memo (<[page := copy]> memo) rest h1 in
          (copy :: out, h')
      end
  end.

Definition deepcopy (pages : list loc) (h : heap Embed)
    : list loc * heap Embed :=
  deepcopy_memo ∅ pages h.

(** [str(n)] for a non-negative integer. *)
Definition str (n : nat) : string := NilEmpty.string_of_uint (Nat.to_uint n).

(** [f"({page_index+1}/{len(pages)})"] *)
Definition marker (page_index len_pages : nat) : string :=
  "(" +:+ str (page_index + 1) +:+ "/" +:+ str len_pages +:+ ")".

(** [pages.index(page)]: the first position whose element equals [page].
    [list.index] takes an element that is the very object for equal, and
    the embeds of the SDK version that has [Embed.Empty] define no
    equality of their own, so two embed objects are equal only when they
    are one object. [None] is the [ValueError] of an object that is not
    in the list. *)
Definition index (pages : list loc) (page : loc) : option nat :=
  fst <$> list_find (fun q => q = page) pages.

(** The body of the [for] loop, for one [page]. *)
Definition format_page (pages : list loc) (page : loc) (h : heap Embed)
    : option (heap Embed) :=
  let e := deref h page in
  match text (footer e) with
  | None =>
      page_index ← index pages page;
      Some (update page
              (set_footer (Some (marker page_index (length pages))) None e) h)
  | Some footer_text =>
      page_index ← index pages page;
      match icon_url (footer e) with
      | None =>
          Some (update page
                  (set_footer
                     (Some (footer_text +:+ " - "
                            +:+ marker page_index (length pages)))
                     None e) h)
      | Some icon =>
          Some (update page
                  (set_footer
                     (Some (footer_text +:+ " - "
                            +:+ marker page_index (length pages)))
                     (Some icon) e) h)
      end
  end.

(** [for page in pages: ...], over what is left to visit. *)
Fixpoint format_loop (pages todo : list loc) (h : heap Embed)
    : option (heap Embed) :=
  match todo with
  | [] => Some h
  | page :: rest => h' ← format_page pages page h; format_loop pages rest h'
  end.

(** The property itself: copy, annotate the copies, return them. *)
Definition formatted_pages (self_pages : list loc) (h : heap Embed)
    : option (list loc * heap Embed) :=
  let '(pages, h1) := deepcopy self_pages h in
  h2 ← format_loop pages pages h1;
  Some (pages, h2).

(** The embed the loop body makes of [e] when it stands at position [i]
    of [n]: the three branches, read off as a function. *)
Definition annotated (i n : nat) (e : Embed) : Embed :=
  match text (footer e), icon_url (footer e) with
  | None, _ => set_footer (Some (marker i n)) None e
  | Some t, None => set_footer (Some (t +:+ " - " +:+ marker i n)) None e
  | Some t, Some icon =>
      set_footer (Some (t +:+ " - " +:+ marker i n)) (Some icon) e
  end.

End Formatter.
Import Formatter.

(** ** [EmbedPaginator.run] *)

Module Session.

(** *** The SDK objects the session talks to *)

Inductive ChannelKind := TextChannel | DMChannel | GroupChannel.

Record Channel := { channel_id : nat; kind : ChannelKind }.

Record Message := { id : nat; channel : Channel }.

Record User := { user_id : nat }.

Record Reaction := { message : Message; emoji : string }.

(** [control_emojis: Tuple[str, str, str, str, str]], read by position. *)
Record ControlEmojis :=
  { control0 : string; control1 : string; control2 : string;
    control3 : string; control4 : string }.

(** The default of [__init__]: first, previous, next, last, close. *)
Definition default_control_emojis : ControlEmojis :=
  {| control0 := "⏮"; control1 := "◀"; control2 := "▶";
     control3 := "⏭"; control4 := "⏹" |}.

(** The tuple as the sequence [for emoji in ...] and [in] go through. *)
Definition emojis (c : ControlEmojis) : list string :=
  [control0 c; control1 c; control2 c; control3 c; control4 c].

Record EmbedPaginator :=
  { pages : list loc;
    self_message : option Message;
    control_emojis : ControlEmojis }.

(** The calls made on the platform, in the order they are awaited. *)
Inductive Action :=
| Send (c : Channel) (embed : Embed)
| AddReaction (m : Message) (e : string)
| Edit (m : Message) (embed : Embed)
| RemoveReaction (m : Message) (r : Reaction) (u : User)
| ClearReactions (m : Message)
| Delete (m : Message).

(** What the platform delivers while the session waits: a reaction added
    by a user, or the end of the waiting time. *)
Inductive Event :=
| ReactionAdd (r : Reaction) (u : User)
| Timeout.

(** The exceptions that statements of [run] raise themselves. The calls
    awaited on the platform are taken to be carried out: an exception
    of the SDK out of [send], [add_reaction], [edit] or [delete] would
    end the call where it is raised and is outside this model. *)
Inductive PyError := TypeError | IndexError | ValueError.

(** The session: waiting at a page, finished, or left by an exception. *)
Inductive State :=
| Active (current_page_index : Z)
| Closed
| Raised (err : PyError).

(** *** Setup *)

(** Lines 76 to 79: the channel argument, or the channel of the message
    the paginator was built with, or a [TypeError]. *)
Definition resolve_channel (channel : option Channel)
    (self_message : option Message) : PyError + Channel :=
  match channel, self_message with
  | None, Some m => inr (Session.channel m)
  | None, None => inl TypeError
  | Some c, _ => inr c
  end.

(** [l[i]] for a Python integer: a negative index counts from the end and
    [None] is the [IndexError]. *)
Definition getitem {T} (l : list T) (i : Z) : option T :=
  if bool_decide (0 <= i)%Z then l !! Z.to_nat i
  else if bool_decide (0 <= Z.of_nat (length l) + i)%Z
       then l !! Z.to_nat (Z.of_nat (length l) + i)
       else None.

(** Reaction removal and clearing are skipped in direct and group
    channels. *)
Definition manages_reactions (c : Channel) : bool :=
  match kind c with
  | TextChannel => true
  | DMChannel | GroupChannel => false
  end.

(** *** The loop *)

(** The predicate handed to [wait_for]. *)
Definition check (live : Message) (controls : ControlEmojis)
    (users : list User) (r : Reaction) (u : User) : bool :=
  let res :=
    bool_decide (id (message r) = id live)
    && bool_decide (emoji r ∈ emojis controls) in
  if bool_decide (0 < length users) then
    res && bool_decide (user_id u ∈ (user_id <$> users))
  else res.

(** The [if]/[elif] chain on the emoji of an accepted reaction; [None]
    is its [else] branch. *)
Definition load_page_index (controls : ControlEmojis) (e : string)
    (current_page_index max_index : Z) : option Z :=
  if bool_decide (e = control0 controls) then Some 0%Z
  else if bool_decide (e = control1 controls) then
    Some (if bool_decide (0 < current_page_index)%Z
          then (current_page_index - 1)%Z else current_page_index)
  else if bool_decide (e = control2 controls) then
    Some (if bool_decide (current_page_index < max_index)%Z
          then (current_page_index + 1)%Z else current_page_index)
  else if bool_decide (e = control3 controls) then Some max_index
  else None.

(** One round of [while True]: the session waits at [current_page_index]
    and the platform delivers [ev]. A reaction that fails [check] never
    leaves [wait_for], so the session goes on waiting. The round is the
    one in which the platform carries out what is awaited; the log
    holds the calls in the order they are made. *)
Definition step (self : EmbedPaginator) (users : list User) (c : Channel)
    (live : Message) (h : heap Embed) (current_page_index : Z) (ev : Event)
    : State * list Action * heap Embed :=
  match ev with
  | Timeout =>
      (Closed, if manages_reactions c then [ClearReactions live] else [], h)
  | ReactionAdd r u =>
      if check live (control_emojis self) users r u then
        let max_index := (Z.of_nat (length (pages self)) - 1)%Z in
        match load_page_index (control_emojis self) (emoji r)
                current_page_index max_index with
        | None => (Closed, [Delete live], h)
        | Some load =>
            match formatted_pages (pages self) h with
            | None => (Raised ValueError, [], h)
            | Some (formatted, h') =>
                match getitem formatted load with
                | None => (Raised IndexError, [], h')
                | Some page =>
                    (Active load,
                     Edit live (deref h' page)
                     :: (if manages_reactions c
                         then [RemoveReaction live r u] else []),
                     h')
                end
            end
        end
      else (Active current_page_index, [], h)
  end.

(** The rounds of the loop over the events delivered; the session is
    still [Active] when they run out before it has returned. *)
Fixpoint loop (self : EmbedPaginator) (users : list User) (c : Channel)
    (live : Message) (h : heap Embed) (st : State) (evs : list Event)
    : State * list Action * heap Embed :=
  match st, evs with
  | Active current_page_index, ev :: evs' =>
      let '(st', acts, h') := step self users c live h current_page_index ev in
      let '(st'', acts', h'') := loop self users c live h' st' evs' in
      (st'', acts ++ acts', h'')
  | _, _ => (st, [], h)
  end.

(** What a call of [run] leaves behind. *)
Record Outcome :=
  { final : State;
    log : list Action;
    live_message : option Message;
    store : heap Embed }.

(** [run(users, channel)]; [sent_id] is the id the platform gives the
    message that [channel.send] creates. As in [step], the platform
    carries out every call awaited. *)
Definition run (self : EmbedPaginator) (h : heap Embed) (users : list User)
    (channel : option Channel) (sent_id : nat) (evs : list Event) : Outcome :=
  match resolve_channel channel (self_message self) with
  | inl err =>
      {| final := Raised err; log := [];
         live_message := self_message self; store := h |}
  | inr c =>
      let live := {| id := sent_id; channel := c |} in
      match getitem (pages self) 0 with
      | None =>
          {| final := Raised IndexError; log := [];
             live_message := self_message self; store := h |}
      | Some _embed =>
          if bool_decide (length (pages self) = 1) then
            {| final := Closed; log := [Send c (deref h _embed)];
               live_message := Some live; store := h |}
          else
            match formatted_pages (pages self) h with
            | None =>
                {| final := Raised ValueError; log := [];
                   live_message := self_message self; store := h |}
            | Some (formatted, h1) =>
                match getitem formatted 0 with
                | None =>
                    {| final := Raised IndexError; log := [];
                       live_message := self_message self; store := h1 |}
                | Some page =>
                    let '(st, acts, h2) :=
                      loop self users c live h1 (Active 0) evs in
                    {| final := st;
                       log := Send c (deref h1 page)
                              :: (AddReaction live
                                    <$> emojis (control_emojis self))
                              ++ acts;
                       live_message := Some live; store := h2 |}
                end
            end
      end
  end.

End Session.
Import Session.

(** ** [BotEmbedPaginator] *)

Module Bot.

(** [commands.Context], as far as the paginator reads it. *)
Record Context := { author : User; channel : Channel }.

(** The subclass: the paginator it inherits from, and the context kept
    in [_ctx]. *)
Record BotEmbedPaginator := { _ctx : Context; super : EmbedPaginator }.

(** [BotEmbedPaginator.run(channel, users)]: the author of the command
    stands in for missing users and the channel of the command for a
    missing channel when there is no message either; then the inherited
    [run]. *)
Definition run (self : BotEmbedPaginator) (h : heap Embed)
    (channel : option Channel) (users : option (list User))
    (sent_id : nat) (evs : list Event) : Outcome :=
  let users :=
    match users with
    | None => [author (_ctx self)]
    | Some users => users
    end in
  let channel :=
    match self_message (super self), channel with
    | None, None => Some (Bot.channel (_ctx self))
    | _, _ => channel
    end in
  Session.run (super self) h users channel sent_id evs.

End Bot.

(** ** Reading a log *)

Module Trace.

(** The message an action works on; a [Send] creates its message. *)
Definition target (a : Action) : option Message :=
  match a with
  | Send _ _ => None
  | AddReaction m _ | Edit m _ | RemoveReaction m _ _
  | ClearReactions m | Delete m => Some m
  end.

(** The embed an action puts on display. *)
Definition shown (a : Action) : option Embed :=
  match a with
  | Send _ embed | Edit _ embed => Some embed
  | _ => None
  end.

(** Actions that take reactions off a message. *)
Definition takes_reactions (a : Action) : bool :=
  match a with
  | RemoveReaction _ _ _ | ClearReactions _ => true
  | _ => false
  end.

(** Actions of the setup: the message and its controls. *)
Definition sets_up (a : Action) : bool :=
  match a with
  | Send _ _ | AddReaction _ _ => true
  | _ => false
  end.

(** A store keeps another when every object of that one is still there,
    unchanged. *)
Definition keeps (h h' : heap Embed) : Prop :=
  forall r e, h !! r = Some e -> h' !! r = Some e.

End Trace.

(** * Properties *)

(** ** The object store *)

Module StoreFacts.

Section heap.
Context {T : Type} `{!Inhabited T}.

Lemma deref_lookup (h : heap T) r v : h !! r = Some v -> deref h r = v.
Proof. intros H. unfold deref. by apply list_lookup_total_correct. Qed.

Lemma lookup_update_eq (h : heap T) r v :
  r < length h -> update r v h !! r = Some v.
Proof. intros H. by apply list_lookup_insert_eq. Qed.

Lemma lookup_update_ne (h : heap T) r r' v :
  r <> r' -> update r v h !! r' = h !! r'.
Proof. intros H. by apply list_lookup_insert_ne. Qed.

Lemma length_update (h : heap T) r v : length (update r v h) = length h.
Proof. apply length_insert. Qed.
End heap.

End StoreFacts.
Import StoreFacts.

(** ** The chunker *)

Module ChunkerFacts.
Import Chunker.

Section chunk.
Context {A : Type}.

(** *** Slices *)

Lemma slice_stop_le k n : slice_stop k n <= n.
Proof. unfold slice_stop. case_bool_decide; lia. Qed.

Lemma slice_to_del_to k (l : list A) : slice_to k l ++ del_to k l = l.
Proof. apply take_drop. Qed.

Lemma length_slice_to k (l : list A) :
  length (slice_to k l) = slice_stop k (length l).
Proof.
  unfold slice_to. rewrite length_take.
  pose proof (slice_stop_le k (length l)). lia.
Qed.

Lemma length_del_to k (l : list A) :
  length (del_to k l) = length l - slice_stop k (length l).
Proof. unfold del_to. by rewrite length_drop. Qed.

Lemma longer_than_spec k (l : list A) :
  longer_than k l = true <-> (k < Z.of_nat (length l))%Z.
Proof. unfold longer_than. by rewrite bool_decide_eq_true. Qed.

Lemma longer_than_false k (l : list A) :
  longer_than k l = false <-> (Z.of_nat (length l) <= k)%Z.
Proof. unfold longer_than. rewrite bool_decide_eq_false. lia. Qed.

(** With a positive bound an iteration moves exactly [max_len] elements
    out of the list. *)
Lemma length_del_to_pos k (l : list A) :
  (1 <= k)%Z -> longer_than k l = true ->
  length (del_to k l) = length l - Z.to_nat k /\
  length (del_to k l) < length l.
Proof.
  intros Hk Hl%longer_than_spec. rewrite length_del_to.
  unfold slice_stop. rewrite bool_decide_eq_true_2 by lia. lia.
Qed.

(** With a bound of zero or less the loop condition survives the
    iteration. *)
Lemma longer_than_del_to k (l : list A) :
  (k <= 0)%Z -> longer_than k l = true -> longer_than k (del_to k l) = true.
Proof.
  intros Hk Hl%longer_than_spec. apply longer_than_spec.
  rewrite length_del_to. unfold slice_stop. case_bool_decide; lia.
Qed.

(** *** The loop *)

(** What a finished loop leaves behind: the result is the accumulator,
    then new slice objects, then the caller's own list object, which
    now holds the remainder. Nothing else in the store has changed. *)
Lemma chunk_loop_returns k fuel : forall r subs (h : heap (list A)) l res h',
  h !! r = Some l ->
  chunk_loop fuel k r subs h = Some (res, h') ->
  exists new final,
    res = subs ++ new ++ [r] /\
    h' !! r = Some final /\
    longer_than k final = false /\
    concat (contents h' new) ++ final = l /\
    Forall (fun s =>
            length h <= s /\
            exists c, h' !! s = Some c /\
                      ((0 <= k)%Z -> Z.of_nat (length c) <= k)%Z) new /\
    (new <> [] -> longer_than k l = true) /\
    (new = [] -> h' = h) /\
    (forall r', r' < length h -> r' <> r -> h' !! r' = h !! r').
Proof.
  induction fuel as [|fuel IH]; intros r subs h l res h' Hr Hrun;
    cbn [chunk_loop] in Hrun; rewrite (deref_lookup _ _ _ Hr) in Hrun;
    destruct (longer_than k l) eqn:Hl; try discriminate.
  1,3: injection Hrun as <- <-; exists [], l;
    split_and!; by (done || constructor).
  pose proof (lookup_lt_Some _ _ _ Hr) as Hlt.
  unfold alloc in Hrun.
  set (h1 := h ++ [slice_to k l]) in *.
  assert (Hr2 : update r (del_to k l) h1 !! r = Some (del_to k l)).
  { apply lookup_update_eq. subst h1. rewrite length_app. lia. }
  destruct (IH _ _ _ _ _ _ Hr2 Hrun)
    as (new & final & -> & Hfin & Hstop & Hcat & Hnew & _ & _ & Hframe).
  assert (Hlen2 : length (update r (del_to k l) h1) = S (length h)).
  { rewrite length_update. subst h1. rewrite length_app. simpl. lia. }
  assert (Hs : h' !! length h = Some (slice_to k l)).
  { rewrite Hframe by lia. rewrite lookup_update_ne by lia.
    subst h1. rewrite lookup_app_r by lia. by rewrite Nat.sub_diag. }
  exists (length h :: new), final. split_and!; try done.
  - by rewrite <- app_assoc.
  - unfold contents in *. rewrite fmap_cons. cbn [concat].
    rewrite (deref_lookup _ _ _ Hs), <- app_assoc, Hcat.
    apply slice_to_del_to.
  - constructor.
    + split; [lia|]. exists (slice_to k l). split; [done|].
      intros Hk. rewrite length_slice_to. unfold slice_stop.
      rewrite bool_decide_eq_true_2 by done. lia.
    + eapply Forall_impl; [exact Hnew|].
      intros s [Hge Hc]. split; [lia | done].
  - intros r' Hr' Hne. rewrite Hframe by lia.
    rewrite lookup_update_ne by done. subst h1. by apply lookup_app_l.
Qed.

(** A positive bound: the loop finishes within [len(origin_list)]
    iterations. *)
Lemma chunk_loop_terminates k (Hk : (1 <= k)%Z) fuel :
  forall r subs (h : heap (list A)) l,
    h !! r = Some l -> length l <= fuel ->
    is_Some (chunk_loop fuel k r subs h).
Proof.
  induction fuel as [|fuel IH]; intros r subs h l Hr Hfuel;
    cbn [chunk_loop]; rewrite (deref_lookup _ _ _ Hr);
    destruct (longer_than k l) eqn:Hl; try done.
  - apply longer_than_spec in Hl. lia.
  - pose proof (lookup_lt_Some _ _ _ Hr) as Hlt.
    destruct (length_del_to_pos k l Hk Hl) as [_ Hdec].
    unfold alloc. eapply IH; [|].
    + apply lookup_update_eq. rewrite length_app. lia.
    + lia.
Qed.

(** A bound of zero or less: once entered, the loop never finishes. *)
Lemma chunk_loop_diverges k (Hk : (k <= 0)%Z) fuel :
  forall r subs (h : heap (list A)) l,
    h !! r = Some l -> longer_than k l = true ->
    chunk_loop fuel k r subs h = None.
Proof.
  induction fuel as [|fuel IH]; intros r subs h l Hr Hl;
    cbn [chunk_loop]; rewrite (deref_lookup _ _ _ Hr), Hl; [done|].
  pose proof (lookup_lt_Some _ _ _ Hr) as Hlt.
  unfold alloc. eapply IH.
  - apply lookup_update_eq. rewrite length_app. lia.
  - by apply longer_than_del_to.
Qed.

(** *** The function *)

(** C2 (amended): for every list and every chunk size of at least one,
    [generate_sub_lists] returns, within as many iterations as the list
    has elements, sublists whose concatenation in order is the original
    list and which each hold at most [max_len] elements; a list of at
    most [max_len] elements comes back as the one-element result that
    holds the list itself. *)
Theorem generate_sub_lists_chunks (h : heap (list A)) r (items : list A) k :
  h !! r = Some items -> (1 <= k)%Z ->
  exists subs h',
    generate_sub_lists (length items) h r k = Some (subs, h') /\
    concat (contents h' subs) = items /\
    Forall (fun c => (Z.of_nat (length c) <= k)%Z) (contents h' subs) /\
    ((Z.of_nat (length items) <= k)%Z ->
     subs = [r] /\ h' = h /\ contents h' subs = [items]).
Proof.
  intros Hr Hk. unfold generate_sub_lists.
  rewrite (deref_lookup _ _ _ Hr).
  destruct (longer_than k items) eqn:Hl.
  - destruct (chunk_loop_terminates k Hk (length items) r [] h items Hr)
      as [[res h'] Hrun]; [done|].
    destruct (chunk_loop_returns _ _ _ _ _ _ _ _ Hr Hrun)
      as (new & final & -> & Hfin & Hstop & Hcat & Hnew & _).
    exists (new ++ [r]), h'. cbn [app]. split_and!; [done| | |].
    + unfold contents in *. rewrite fmap_app, concat_app. cbn.
      by rewrite (deref_lookup _ _ _ Hfin), app_nil_r.
    + unfold contents. rewrite fmap_app. apply Forall_app. split.
      * apply Forall_fmap. eapply Forall_impl; [exact Hnew|].
        intros s (_ & c & Hc & Hle). cbn.
        rewrite (deref_lookup _ _ _ Hc). apply Hle. lia.
      * repeat constructor. rewrite (deref_lookup _ _ _ Hfin).
        by apply longer_than_false.
    + apply longer_than_spec in Hl. lia.
  - exists [r], h. unfold contents. cbn.
    rewrite (deref_lookup _ _ _ Hr), app_nil_r.
    split_and!; try done. repeat constructor. by apply longer_than_false.
Qed.

(** C9: [generate_sub_lists] works on the caller's list object. When
    the list is longer than [max_len], a call that returns has cut the
    caller's list down to the final chunk, and that very object is the
    last entry of the result, behind new objects for the chunks cut off
    (with [max_len] of one or more the call does return); when it is
    not longer, the result is the caller's object alone, uncopied, and
    the store is untouched. *)
Theorem generate_sub_lists_in_place (h : heap (list A)) r
    (origin_list : list A) k :
  h !! r = Some origin_list ->
  (longer_than k origin_list = true ->
   ((1 <= k)%Z -> is_Some (generate_sub_lists (length origin_list) h r k)) /\
   forall fuel subs h',
     generate_sub_lists fuel h r k = Some (subs, h') ->
     exists chunks final,
       subs = chunks ++ [r] /\
       chunks <> [] /\
       Forall (fun s => length h <= s) chunks /\
       h' !! r = Some final /\
       length final < length origin_list /\
       origin_list = concat (contents h' chunks) ++ final) /\
  (longer_than k origin_list = false ->
   forall fuel, generate_sub_lists fuel h r k = Some ([r], h)).
Proof.
  intros Hr. unfold generate_sub_lists. rewrite (deref_lookup _ _ _ Hr).
  split; intros Hl; rewrite Hl; [split|done].
  - intros Hk. by eapply chunk_loop_terminates.
  - intros fuel subs h' Hrun.
    destruct (chunk_loop_returns _ _ _ _ _ _ _ _ Hr Hrun)
      as (new & final & -> & Hfin & Hstop & Hcat & Hnew & _ & Hnil & _).
    exists new, final. cbn [app]. split_and!; try done.
    + intros ->. rewrite Hnil in Hfin by done. congruence.
    + eapply Forall_impl; [exact Hnew|]. by intros s [? _].
    + apply longer_than_spec in Hl. apply longer_than_false in Hstop. lia.
Qed.

(** C10 (amended): with [max_len] of one or more the function returns
    for every list; with [max_len] of zero or less it returns for no
    non-empty list. An iteration removes nothing when [max_len] is
    zero; when it is negative an iteration leaves the last [-max_len]
    elements, so it does remove elements from a longer list and
    removes nothing from then on. *)
Theorem generate_sub_lists_termination (h : heap (list A)) r
    (origin_list : list A) k :
  h !! r = Some origin_list ->
  ((1 <= k)%Z -> is_Some (generate_sub_lists (length origin_list) h r k)) /\
  ((k <= 0)%Z -> origin_list <> [] ->
   (forall fuel, generate_sub_lists fuel h r k = None) /\
   (k = 0%Z -> forall l : list A, del_to k l = l) /\
   ((k < 0)%Z -> forall l : list A,
      length (del_to k l) = length l `min` Z.to_nat (- k))).
Proof.
  intros Hr. unfold generate_sub_lists. rewrite (deref_lookup _ _ _ Hr).
  split.
  - intros Hk. destruct (longer_than k origin_list) eqn:Hl; [|done].
    by eapply chunk_loop_terminates.
  - intros Hk Hne.
    assert (Hl : longer_than k origin_list = true).
    { apply longer_than_spec. destruct origin_list; [done|]. cbn. lia. }
    rewrite Hl. split_and!.
    + intros fuel. by eapply chunk_loop_diverges.
    + intros -> l. unfold del_to, slice_stop. by cbn.
    + intros Hneg l. rewrite length_del_to. unfold slice_stop.
      rewrite bool_decide_eq_false_2 by lia. lia.
Qed.
End chunk.

(** C2, refuted as stated: with a chunk size of zero the call on a
    one-element list returns nothing, whatever the number of iterations
    it is given. *)
Lemma generate_sub_lists_zero_never_returns :
  ~ exists fuel res, generate_sub_lists fuel [[7]] 0 0%Z = Some res.
Proof.
  intros (fuel & res & Hrun). unfold generate_sub_lists in Hrun.
  cbn in Hrun.
  by rewrite (chunk_loop_diverges 0%Z ltac:(done) fuel 0 [] [[7]] [7]) in Hrun.
Qed.

Lemma generate_sub_lists_chunks_witness :
  exists subs h',
    generate_sub_lists 5 [[1; 2; 3; 4; 5]] 0 2%Z = Some (subs, h') /\
    concat (contents h' subs) = [1; 2; 3; 4; 5] /\
    Forall (fun c => (Z.of_nat (length c) <= 2)%Z) (contents h' subs) /\
    ((Z.of_nat 5 <= 2)%Z ->
     subs = [0] /\ h' = [[1; 2; 3; 4; 5]] /\
     contents h' subs = [[1; 2; 3; 4; 5]]).
Proof.
  apply (generate_sub_lists_chunks [[1; 2; 3; 4; 5]] 0 [1; 2; 3; 4; 5] 2%Z).
  - reflexivity.
  - lia.
Defined.

Lemma generate_sub_lists_in_place_witness :
  [[1; 2; 3; 4; 5]] !! 0 = Some [1; 2; 3; 4; 5] /\
  exists chunks final,
    [1; 2; 0] = chunks ++ [0] /\
    chunks <> [] /\
    Forall (fun s => 1 <= s) chunks /\
    [[5]; [1; 2]; [3; 4]] !! 0 = Some final /\
    length final < 5 /\
    [1; 2; 3; 4; 5] = concat (contents [[5]; [1; 2]; [3; 4]] chunks) ++ final.
Proof.
  split; [reflexivity|].
  apply (generate_sub_lists_in_place [[1; 2; 3; 4; 5]] 0 [1; 2; 3; 4; 5] 2%Z
           ltac:(reflexivity)) with (fuel := 5); reflexivity.
Defined.

(** C10, refuted as stated: with [max_len = -1] the first iteration on a
    three-element list is entered and takes two elements off the list. *)
Lemma generate_sub_lists_negative_removes :
  longer_than (-1)%Z [1; 2; 3] = true /\
  slice_to (-1)%Z [1; 2; 3] = [1; 2] /\
  del_to (-1)%Z [1; 2; 3] = [3] /\
  del_to (-1)%Z [1; 2; 3] <> [1; 2; 3].
Proof. by split_and!. Qed.

Lemma generate_sub_lists_termination_witness :
  (forall fuel, generate_sub_lists fuel [[1; 2; 3]] 0 (-1)%Z = None) /\
  length (del_to (-1)%Z [1; 2; 3]) = 3 `min` Z.to_nat (- (-1)).
Proof.
  destruct (generate_sub_lists_termination [[1; 2; 3]] 0 [1; 2; 3] (-1)%Z
              ltac:(reflexivity)) as [_ Hdiv].
  destruct (Hdiv ltac:(lia) ltac:(discriminate)) as (Hnone & _ & Hlen).
  split; [exact Hnone | exact (Hlen ltac:(lia) [1; 2; 3])].
Defined.

End ChunkerFacts.

(** ** The formatter *)

Module FormatterFacts.

(** *** The copy *)

(** Copies are new objects past the end of the caller's store (which
    ends at [n0]), and the store only grows. *)
Lemma deepcopy_memo_fresh n0 pages :
  forall (memo : gmap nat nat) (h : heap Embed) out h1,
  n0 <= length h ->
  map_Forall (fun _ copy => n0 <= copy < length h) memo ->
  deepcopy_memo memo pages h = (out, h1) ->
  length out = length pages /\
  h `prefix_of` h1 /\
  Forall (fun copy => n0 <= copy < length h1) out.
Proof.
  induction pages as [|page rest IH]; intros memo h out h1 Hn0 Hmemo Hrun;
    cbn [deepcopy_memo] in Hrun.
  { injection Hrun as <- <-. by split_and!. }
  destruct (memo !! page) as [copy|] eqn:Hpage.
  - destruct (deepcopy_memo memo rest h) as [out' h'] eqn:Hrest.
    injection Hrun as <- <-.
    destruct (IH _ _ _ _ Hn0 Hmemo Hrest) as (Hlen & Hpre & Hout).
    split_and!; [by cbn; rewrite Hlen | done |].
    constructor; [|done].
    pose proof (Hmemo _ _ Hpage) as Hcopy. cbn in Hcopy.
    apply prefix_length in Hpre. lia.
  - unfold alloc in Hrun.
    destruct (deepcopy_memo (<[page:=length h]> memo) rest
                (h ++ [deref h page])) as [out' h'] eqn:Hrest.
    injection Hrun as <- <-.
    assert (Hlen1 : length (h ++ [deref h page]) = S (length h)).
    { rewrite length_app. cbn. lia. }
    assert (Hmemo' : map_Forall
              (fun _ copy => n0 <= copy < length (h ++ [deref h page]))
              (<[page:=length h]> memo)).
    { apply map_Forall_insert_2; [lia|].
      intros p c Hc. pose proof (Hmemo _ _ Hc) as Hc'. cbn in Hc'. lia. }
    destruct (IH _ (h ++ [deref h page]) _ _ ltac:(lia) Hmemo' Hrest)
      as (Hlen & Hpre & Hout).
    split_and!; [by cbn; rewrite Hlen | |].
    + etrans; [|exact Hpre]. by apply prefix_app_r.
    + constructor; [|done]. apply prefix_length in Hpre. lia.
Qed.

(** A list without repetitions never meets the memo: page [i] is copied
    to the [i]-th new object. *)
Lemma deepcopy_memo_distinct pages :
  forall (memo : gmap nat nat) (h : heap Embed),
  NoDup pages ->
  Forall (fun page => memo !! page = None /\ page < length h) pages ->
  deepcopy_memo memo pages h
  = (seq (length h) (length pages), h ++ (deref h <$> pages)).
Proof.
  induction pages as [|page rest IH]; intros memo h Hnd Hpages;
    cbn [deepcopy_memo].
  { by rewrite app_nil_r. }
  apply NoDup_cons in Hnd as [Hnotin Hnd].
  apply Forall_cons in Hpages as [[Hnone Hlt] Hrest].
  rewrite Hnone. unfold alloc.
  rewrite IH; [|done|].
  - rewrite length_app. cbn [length fmap list_fmap seq].
    rewrite Nat.add_1_r, <- app_assoc. cbn [app]. do 3 f_equal.
    apply list_fmap_ext. intros i p Hp.
    apply Forall_lookup_1 with (i := i) (x := p) in Hrest as [_ Hplt]; [|done].
    unfold deref. by rewrite lookup_total_app_l.
  - apply Forall_forall. intros p Hp.
    rewrite Forall_forall in Hrest. destruct (Hrest p Hp) as [Hpn Hpl].
    split.
    + rewrite lookup_insert_ne; [done|]. by intros ->.
    + rewrite length_app. lia.
Qed.

(** *** The loop *)

(** [pages.index] finds every object drawn from [pages]. *)
Lemma index_elem_of (pages : list loc) page :
  page ∈ pages -> is_Some (index pages page).
Proof.
  intros Hin. unfold index.
  destruct (list_find_elem_of (fun q => q = page) pages page Hin eq_refl)
    as [[i q] Hfind].
  rewrite Hfind. by eexists.
Qed.

(** In a list without repetitions it finds the object where it stands. *)
Lemma index_NoDup (pages : list loc) i page :
  NoDup pages -> pages !! i = Some page -> index pages page = Some i.
Proof.
  intros Hnd Hi. unfold index.
  destruct (list_find (fun q => q = page) pages) as [[j q]|] eqn:Hfind.
  - apply list_find_Some in Hfind as (Hj & -> & _). cbn.
    f_equal. by eapply NoDup_lookup.
  - apply list_find_None in Hfind. rewrite Forall_forall in Hfind.
    exfalso. apply (Hfind page); [|done]. by eapply list_elem_of_lookup_2.
Qed.

(** The three branches write what [annotated] describes. *)
Lemma format_page_annotated (pages : list loc) page (h : heap Embed) i :
  index pages page = Some i ->
  format_page pages page h
  = Some (update page (annotated i (length pages) (deref h page)) h).
Proof.
  intros Hi. unfold format_page, annotated. rewrite Hi.
  by destruct (text (footer (deref h page))),
              (icon_url (footer (deref h page))).
Qed.

(** The loop finishes, and touches only the objects it visits. *)
Lemma format_loop_frame (pages : list loc) todo : forall h : heap Embed,
  Forall (fun page => page ∈ pages) todo ->
  exists h',
    format_loop pages todo h = Some h' /\
    length h' = length h /\
    forall r, r ∉ todo -> h' !! r = h !! r.
Proof.
  induction todo as [|page rest IH]; intros h Htodo; cbn [format_loop].
  { by exists h. }
  apply Forall_cons in Htodo as [Hpage Hrest].
  destruct (index_elem_of _ _ Hpage) as [i Hi].
  rewrite (format_page_annotated _ _ _ _ Hi). cbn [mbind option_bind].
  destruct (IH (update page (annotated i (length pages) (deref h page)) h)
              Hrest) as (h' & Hrun & Hlen & Hframe).
  exists h'. split_and!; [done | by rewrite Hlen, length_update |].
  intros r [Hne Hnotin]%not_elem_of_cons.
  rewrite Hframe by done. by apply lookup_update_ne.
Qed.

(** Over distinct page objects, the object at position [i] ends up as
    [annotated i] of what it was. *)
Lemma format_loop_distinct (pages : list loc) todo :
  forall (visited : list loc) (h : heap Embed),
    pages = visited ++ todo ->
    NoDup pages ->
    Forall (fun page => page < length h) pages ->
    exists h',
      format_loop pages todo h = Some h' /\
      length h' = length h /\
      (forall r, r ∉ todo -> h' !! r = h !! r) /\
      forall i page,
        length visited <= i -> pages !! i = Some page ->
        h' !! page = Some (annotated i (length pages) (deref h page)).
Proof.
  induction todo as [|page rest IH]; intros visited h Hpages Hnd Hvalid;
    cbn [format_loop].
  { exists h. split_and!; try done. intros i page Hi Hlook.
    apply lookup_lt_Some in Hlook. subst pages.
    rewrite app_nil_r in Hlook. lia. }
  assert (Hhere : pages !! length visited = Some page).
  { subst pages. by rewrite list_lookup_middle. }
  rewrite (format_page_annotated _ _ _ _ (index_NoDup _ _ _ Hnd Hhere)).
  cbn [mbind option_bind].
  set (h1 := update page
               (annotated (length visited) (length pages) (deref h page)) h).
  assert (Hlt : page < length h).
  { rewrite Forall_forall in Hvalid. apply Hvalid.
    by eapply list_elem_of_lookup_2. }
  destruct (IH (visited ++ [page]) h1) as (h' & Hrun & Hlen & Hframe & Hann).
  { by rewrite <- app_assoc. }
  { done. }
  { subst h1. by rewrite length_update. }
  assert (Hnotin : page ∉ rest).
  { subst pages. apply NoDup_app in Hnd as (_ & _ & Hnd).
    by apply NoDup_cons in Hnd as [? _]. }
  exists h'. split_and!; [done | by rewrite Hlen; apply length_update | |].
  - intros r [Hne Hr]%not_elem_of_cons. rewrite Hframe by done.
    by apply lookup_update_ne.
  - intros i p Hi Hlook.
    destruct (decide (i = length visited)) as [->|Hne].
    + assert (p = page) as -> by congruence.
      rewrite Hframe by done. by apply lookup_update_eq.
    + rewrite (Hann i p); [|rewrite length_app; cbn; lia|done].
      do 2 f_equal. unfold deref, h1.
      apply list_lookup_total_insert_ne. intros ->.
      apply Hne. by eapply NoDup_lookup.
Qed.

(** *** The property *)

(** The property never raises, and gives as many pages as there are. *)
Lemma formatted_pages_returns (self_pages : list loc) (h : heap Embed) :
  exists out h',
    formatted_pages self_pages h = Some (out, h') /\
    length out = length self_pages.
Proof.
  unfold formatted_pages, deepcopy.
  destruct (deepcopy_memo ∅ self_pages h) as [pages h1] eqn:Hcopy.
  destruct (deepcopy_memo_fresh 0 _ _ _ _ _ (Nat.le_0_l _)
              (map_Forall_empty _) Hcopy) as (Hlen & _).
  destruct (format_loop_frame pages pages h1) as (h2 & Hrun & _).
  { by apply Forall_forall. }
  rewrite Hrun. cbn [mbind option_bind]. by exists pages, h2.
Qed.

(** C6: [formatted_pages] returns for every list of pages, with as many
    pages as it was given; every object of the caller's store, footer
    text and icon included, is afterwards what it was, and the pages
    returned are new objects. *)
Theorem formatted_pages_frame (self_pages : list loc) (h : heap Embed) :
  exists out h',
    formatted_pages self_pages h = Some (out, h') /\
    length out = length self_pages /\
    (forall r e, h !! r = Some e -> h' !! r = Some e) /\
    Forall (fun page => length h <= page < length h') out.
Proof.
  unfold formatted_pages, deepcopy.
  destruct (deepcopy_memo ∅ self_pages h) as [pages h1] eqn:Hcopy.
  destruct (deepcopy_memo_fresh (length h) _ _ _ _ _ (le_n _)
              (map_Forall_empty _) Hcopy) as (Hlen & Hpre & Hfresh).
  destruct (format_loop_frame pages pages h1) as (h2 & Hrun & Hlen2 & Hframe).
  { by apply Forall_forall. }
  rewrite Hrun. cbn [mbind option_bind]. exists pages, h2.
  split_and!; [done | done | | by rewrite Hlen2].
  intros r e Hr. rewrite Hframe.
  - by eapply prefix_lookup_Some.
  - intros Hin. rewrite Forall_forall in Hfresh.
    apply Hfresh in Hin. apply lookup_lt_Some in Hr. lia.
Qed.

(** Over pairwise distinct page objects the formatter does what its
    docstring says: output page [i] is a new object holding page [i]
    with the marker of position [i] on its footer. *)
Theorem formatted_pages_distinct (self_pages : list loc) (h : heap Embed) :
  NoDup self_pages ->
  Forall (fun page => page < length h) self_pages ->
  exists out h',
    formatted_pages self_pages h = Some (out, h') /\
    length out = length self_pages /\
    forall i page,
      self_pages !! i = Some page ->
      exists copy,
        out !! i = Some copy /\
        h' !! copy
        = Some (annotated i (length self_pages) (deref h page)).
Proof.
  intros Hnd Hvalid. unfold formatted_pages, deepcopy.
  rewrite deepcopy_memo_distinct; [|done|].
  2: { eapply Forall_impl; [exact Hvalid|]. intros p Hp.
       split; [apply lookup_empty | done]. }
  set (pages := seq (length h) (length self_pages)).
  set (h1 := h ++ (deref h <$> self_pages)).
  assert (Hlen1 : length h1 = length h + length self_pages).
  { subst h1. by rewrite length_app, length_fmap. }
  destruct (format_loop_distinct pages pages [] h1 eq_refl)
    as (h2 & Hrun & Hlen2 & _ & Hann).
  { apply NoDup_seq. }
  { apply Forall_forall. intros p Hp%elem_of_seq. lia. }
  rewrite Hrun. cbn [mbind option_bind]. exists pages, h2.
  assert (Hlen : length pages = length self_pages) by apply length_seq.
  split_and!; [done | done |].
  intros i page Hi. pose proof (lookup_lt_Some _ _ _ Hi) as Hlt.
  assert (Hcopy : pages !! i = Some (length h + i)).
  { by apply lookup_seq. }
  exists (length h + i). split; [done|].
  rewrite (Hann i _ (Nat.le_0_l _) Hcopy), Hlen. do 2 f_equal.
  apply deref_lookup. subst h1.
  rewrite lookup_app_r by lia.
  replace (length h + i - length h) with i by lia.
  by rewrite list_lookup_fmap, Hi.
Qed.

(** C1, on a list that holds one page object twice: the copy keeps the
    sharing, the loop visits the one copy twice and [index] answers 0
    both times, so output page 1 carries the marker of page 0 twice
    and not its own. *)
Theorem formatted_pages_shared_page :
  let page := {| title := "A"; description := ""; footer := empty_footer |} in
  formatted_pages [0; 0] [page]
  = Some ([1; 1], [page; set_footer (Some "(1/2) - (1/2)") None page]) /\
  annotated 1 2 page = set_footer (Some "(2/2)") None page /\
  set_footer (Some "(1/2) - (1/2)") None page <> annotated 1 2 page.
Proof. by split_and!. Qed.

(** A footer that has an icon and no text takes the first branch, which
    passes no icon on: the icon is gone from the output page. *)
Lemma formatted_pages_icon_only :
  let page := {| title := "A"; description := "";
                 footer := {| text := None; icon_url := Some "i.png" |} |} in
  formatted_pages [0] [page]
  = Some ([1], [page; set_footer (Some "(1/1)") None page]).
Proof. done. Qed.

End FormatterFacts.
Import FormatterFacts.

(** ** The navigation session *)

Module SessionFacts.

(** *** Acceptance *)

Lemma check_accepts live controls users r u :
  check live controls users r u = true <->
  id (message r) = id live /\
  emoji r ∈ emojis controls /\
  (users = [] \/ user_id u ∈ (user_id <$> users)).
Proof.
  unfold check. destruct users as [|u1 users]; cbn [length].
  - rewrite bool_decide_eq_false_2 by lia.
    rewrite andb_true_iff, !bool_decide_eq_true. tauto.
  - rewrite bool_decide_eq_true_2 by lia.
    rewrite !andb_true_iff, !bool_decide_eq_true.
    split; [tauto|]. intros (? & ? & [?|?]); done.
Qed.

Lemma check_rejects live controls users r u :
  emoji r ∉ emojis controls \/
  (users <> [] /\ user_id u ∉ (user_id <$> users)) \/
  id (message r) <> id live ->
  check live controls users r u = false.
Proof.
  intros Hrej. apply not_true_is_false. rewrite check_accepts.
  intros (Hid & Hemoji & Huser).
  destruct Hrej as [?|[[? ?]|?]]; [done| |done].
  by destruct Huser.
Qed.

(** *** Transitions *)

(** The new index is never outside the pages. *)
Lemma load_page_index_range controls e current max_index load :
  (0 <= current <= max_index)%Z ->
  load_page_index controls e current max_index = Some load ->
  (0 <= load <= max_index)%Z.
Proof.
  intros Hrange. unfold load_page_index.
  repeat case_bool_decide; intros [= <-]; lia.
Qed.

(** The [else] branch is reached by the fifth control only. *)
Lemma load_page_index_else controls e current max_index :
  e ∈ emojis controls ->
  load_page_index controls e current max_index = None ->
  e = control4 controls.
Proof.
  unfold load_page_index, emojis. intros Hin.
  repeat case_bool_decide; try done. intros _.
  rewrite !elem_of_cons, elem_of_nil in Hin. tauto.
Qed.

(** Reading a page by an index within the list succeeds. *)
Lemma getitem_in_range {T} (l : list T) (i : Z) :
  (0 <= i < Z.of_nat (length l))%Z -> is_Some (getitem l i).
Proof.
  intros Hi. unfold getitem. rewrite bool_decide_eq_true_2 by lia.
  apply lookup_lt_is_Some. lia.
Qed.

(** In a round started within the pages [pages.index] finds its page
    and [formatted_pages[load_page_index]] is within the list, so that
    no statement of the round raises; a session left waiting is within
    the pages. *)
Lemma step_in_range self users c live (h : heap Embed) current ev :
  (0 <= current <= Z.of_nat (length (pages self)) - 1)%Z ->
  match (step self users c live h current ev).1.1 with
  | Active load => (0 <= load <= Z.of_nat (length (pages self)) - 1)%Z
  | Closed => True
  | Raised _ => False
  end.
Proof.
  intros Hrange. destruct ev as [r u|]; cbn [step]; [|done].
  destruct (check _ _ _ _ _); [|done].
  destruct (load_page_index _ _ _ _) as [load|] eqn:Hload; [|done].
  pose proof (load_page_index_range _ _ _ _ _ Hrange Hload) as Hin.
  destruct (formatted_pages_returns (pages self) h)
    as (formatted & h' & -> & Hlen).
  destruct (getitem_in_range formatted load) as [page ->]; [lia|done].
Qed.

Lemma loop_in_range self users c live evs : forall (h : heap Embed) current,
  (0 <= current <= Z.of_nat (length (pages self)) - 1)%Z ->
  match (loop self users c live h (Active current) evs).1.1 with
  | Active load => (0 <= load <= Z.of_nat (length (pages self)) - 1)%Z
  | Closed => True
  | Raised _ => False
  end.
Proof.
  induction evs as [|ev evs IH]; intros h current Hrange; cbn [loop].
  { done. }
  pose proof (step_in_range self users c live h current ev Hrange) as Hstep.
  destruct (step self users c live h current ev) as [[st acts] h'].
  cbn [fst] in Hstep. destruct st as [load| |err]; [|by destruct evs|done].
  specialize (IH h' load Hstep).
  by destruct (loop self users c live h' (Active load) evs) as [[st acts'] h''].
Qed.

(** An accepted reaction that the chain sends to a page leaves the
    session waiting at that page. *)
Lemma step_navigates self users c live (h : heap Embed) current r u load :
  (0 <= current <= Z.of_nat (length (pages self)) - 1)%Z ->
  check live (control_emojis self) users r u = true ->
  load_page_index (control_emojis self) (emoji r) current
    (Z.of_nat (length (pages self)) - 1) = Some load ->
  (step self users c live h current (ReactionAdd r u)).1.1 = Active load.
Proof.
  intros Hrange Hcheck Hload. cbn [step]. rewrite Hcheck, Hload.
  pose proof (load_page_index_range _ _ _ _ _ Hrange Hload) as Hin.
  destruct (formatted_pages_returns (pages self) h)
    as (formatted & h' & -> & Hlen).
  by destruct (getitem_in_range formatted load) as [page ->]; [lia|].
Qed.

(** C3: the session waits at an index within the pages and a reaction
    passes [check]. If the chain takes it for [first] (it is the first
    control emoji) the session goes to index 0; for [previous] (not the
    first, but the second) it stays at 0 from 0 and goes one down
    otherwise; for [next] (neither of these, but the third) it stays at
    the last index from there and goes one up otherwise; for [last]
    (none of these, but the fourth) it goes to the last index. And
    whatever the event, a round that leaves the session waiting leaves
    it at an index within the pages. *)
Theorem navigation_clamps self users c live (h : heap Embed) current r u :
  let controls := control_emojis self in
  let last_index := (Z.of_nat (length (pages self)) - 1)%Z in
  let after := (step self users c live h current (ReactionAdd r u)).1.1 in
  (0 <= current <= last_index)%Z ->
  check live controls users r u = true ->
  (emoji r = control0 controls -> after = Active 0) /\
  (emoji r <> control0 controls -> emoji r = control1 controls ->
   (current = 0%Z -> after = Active 0) /\
   ((0 < current)%Z -> after = Active (current - 1))) /\
  (emoji r <> control0 controls -> emoji r <> control1 controls ->
   emoji r = control2 controls ->
   (current = last_index -> after = Active last_index) /\
   ((current < last_index)%Z -> after = Active (current + 1))) /\
  (emoji r <> control0 controls -> emoji r <> control1 controls ->
   emoji r <> control2 controls -> emoji r = control3 controls ->
   after = Active last_index) /\
  forall ev load,
    (step self users c live h current ev).1.1 = Active load ->
    (0 <= load <= last_index)%Z.
Proof.
  intros controls last_index after Hrange Hcheck.
  assert (Hgo : forall load,
            load_page_index controls (emoji r) current last_index = Some load ->
            after = Active load).
  { intros load Hload. by apply step_navigates. }
  split_and!.
  - intros H0. apply Hgo. unfold load_page_index.
    by rewrite bool_decide_eq_true_2.
  - intros H0 H1. split; intros Hcur; apply Hgo; unfold load_page_index;
      rewrite bool_decide_eq_false_2, bool_decide_eq_true_2 by done;
      case_bool_decide; f_equal; lia.
  - intros H0 H1 H2. split; intros Hcur; apply Hgo; unfold load_page_index;
      rewrite !bool_decide_eq_false_2, bool_decide_eq_true_2 by done;
      case_bool_decide; f_equal; lia.
  - intros H0 H1 H2 H3. apply Hgo. unfold load_page_index.
    by rewrite !bool_decide_eq_false_2, bool_decide_eq_true_2 by done.
  - intros ev load Hload.
    pose proof (step_in_range self users c live h current ev Hrange) as Hstep.
    by rewrite Hload in Hstep.
Qed.

Lemma navigation_clamps_witness :
  let c := {| channel_id := 1; kind := TextChannel |} in
  let live := {| id := 7; channel := c |} in
  let u := {| user_id := 3 |} in
  let self := {| pages := [0; 1; 2]; self_message := None;
                 control_emojis := default_control_emojis |} in
  let h := [inhabitant; inhabitant; inhabitant] in
  let previous := {| message := live; emoji := "◀" |} in
  let next := {| message := live; emoji := "▶" |} in
  (step self [u] c live h 0 (ReactionAdd previous u)).1.1 = Active 0 /\
  (step self [u] c live h 1 (ReactionAdd next u)).1.1 = Active 2 /\
  (step self [u] c live h 2 (ReactionAdd next u)).1.1 = Active 2.
Proof.
  intros c live u self h previous next.
  destruct (navigation_clamps self [u] c live h 0%Z previous u
              ltac:(cbn; lia) ltac:(reflexivity)) as (_ & Hprev & _).
  destruct (navigation_clamps self [u] c live h 1%Z next u
              ltac:(cbn; lia) ltac:(reflexivity)) as (_ & _ & Hup & _).
  destruct (navigation_clamps self [u] c live h 2%Z next u
              ltac:(cbn; lia) ltac:(reflexivity)) as (_ & _ & Hnext & _).
  split_and!.
  - by apply Hprev.
  - by apply Hup.
  - by apply Hnext.
Defined.

(** C8: a reaction whose emoji is not a control emoji, or whose user is
    not among a non-empty list of permitted users, or which is on
    another message, fails [check]; the session goes on waiting at the
    same index, nothing is sent to the platform and the store, hence
    what the message shows, is unchanged. *)
Theorem rejected_reaction_ignored self users c live (h : heap Embed)
    current r u :
  emoji r ∉ emojis (control_emojis self) \/
  (users <> [] /\ user_id u ∉ (user_id <$> users)) \/
  id (message r) <> id live ->
  check live (control_emojis self) users r u = false /\
  step self users c live h current (ReactionAdd r u)
  = (Active current, [], h).
Proof.
  intros Hrej%check_rejects. split; [done|].
  cbn [step]. by rewrite Hrej.
Qed.

Lemma rejected_reaction_ignored_witness :
  let c := {| channel_id := 1; kind := TextChannel |} in
  let live := {| id := 7; channel := c |} in
  let self := {| pages := [0; 1]; self_message := None;
                 control_emojis := default_control_emojis |} in
  let r := {| message := live; emoji := "▶" |} in
  check live default_control_emojis [{| user_id := 3 |}] r {| user_id := 4 |}
  = false /\
  step self [{| user_id := 3 |}] c live [] 0 (ReactionAdd r {| user_id := 4 |})
  = (Active 0%Z, [], []).
Proof.
  intros c live self r.
  apply (rejected_reaction_ignored self [{| user_id := 3 |}] c live [] 0%Z r
           {| user_id := 4 |}).
  right; left. split; [done|]. cbn.
  rewrite not_elem_of_cons. split; [done | apply not_elem_of_nil].
Defined.

(** C4 (amended): a reaction whose emoji is outside the five control
    emojis is ignored: the session stays waiting at its index and calls
    nothing on the platform. The live message is deleted and the
    session closed only by a reaction that passes [check] and is none
    of the first four controls, which makes it the close control. *)
Theorem unknown_emoji_ignored self users c live (h : heap Embed)
    current r u :
  (emoji r ∉ emojis (control_emojis self) ->
   step self users c live h current (ReactionAdd r u)
   = (Active current, [], h)) /\
  ((step self users c live h current (ReactionAdd r u)).1.1 = Closed ->
   check live (control_emojis self) users r u = true /\
   emoji r = control4 (control_emojis self) /\
   step self users c live h current (ReactionAdd r u)
   = (Closed, [Delete live], h)).
Proof.
  split.
  - intros Hout. cbn [step].
    by rewrite (check_rejects _ _ _ _ _ (or_introl Hout)).
  - cbn [step].
    destruct (check _ _ _ _ _) eqn:Hcheck; [|done].
    destruct (load_page_index _ _ _ _) as [load|] eqn:Hload.
    + destruct (formatted_pages _ _) as [[formatted h']|]; [|done].
      by destruct (getitem formatted load).
    + intros _. split_and!; [done | | done].
      apply check_accepts in Hcheck as (_ & Hin & _).
      by eapply load_page_index_else.
Qed.

Lemma unknown_emoji_ignored_witness :
  let c := {| channel_id := 1; kind := TextChannel |} in
  let live := {| id := 7; channel := c |} in
  let self := {| pages := [0; 1]; self_message := None;
                 control_emojis := default_control_emojis |} in
  let r := {| message := live; emoji := "⏹" |} in
  check live default_control_emojis [] r {| user_id := 3 |} = true /\
  "⏹" = control4 default_control_emojis /\
  step self [] c live [] 0 (ReactionAdd r {| user_id := 3 |})
  = (Closed, [Delete live], []).
Proof.
  intros c live self r.
  apply (unknown_emoji_ignored self [] c live [] 0%Z r {| user_id := 3 |}).
  reflexivity.
Defined.

(** C4, refuted as stated: a thumbs-up on the live message by a
    permitted user neither deletes the message nor closes the session;
    the session goes on waiting. *)
Lemma unknown_emoji_does_not_close :
  let c := {| channel_id := 1; kind := TextChannel |} in
  let live := {| id := 7; channel := c |} in
  let self := {| pages := [0; 1]; self_message := None;
                 control_emojis := default_control_emojis |} in
  let u := {| user_id := 3 |} in
  let r := {| message := live; emoji := "👍" |} in
  (emoji r ∉ emojis (control_emojis self)) /\
  step self [u] c live [] 0 (ReactionAdd r u) = (Active 0%Z, [], []) /\
  (step self [u] c live [] 0 (ReactionAdd r u))
  <> (Closed, [Delete live], []).
Proof.
  intros c live self u r. split_and!; [|done|done].
  unfold emojis. cbn. rewrite !not_elem_of_cons.
  split_and!; try done. apply not_elem_of_nil.
Qed.

(** *** Setup *)

(** Once past the channel check with at least one page, no statement
    of [run] itself raises, and a session left waiting is within the
    pages. *)
Lemma run_resolved_in_range self (h : heap Embed) users channel c
    sent_id evs :
  resolve_channel channel (self_message self) = inr c ->
  pages self <> [] ->
  match final (run self h users channel sent_id evs) with
  | Active current =>
      (0 <= current <= Z.of_nat (length (pages self)) - 1)%Z
  | Closed => True
  | Raised _ => False
  end.
Proof.
  intros Hc Hpages. unfold run. rewrite Hc.
  assert (Hlen : 0 < length (pages self)).
  { destruct (pages self); [done | cbn; lia]. }
  destruct (getitem_in_range (pages self) 0) as [_embed ->]; [lia|].
  case_bool_decide; [done|].
  destruct (formatted_pages_returns (pages self) h)
    as (formatted & h1 & -> & Hflen).
  destruct (getitem_in_range formatted 0) as [page ->]; [lia|].
  pose proof (loop_in_range self users c {| id := sent_id; channel := c |}
                evs h1 0%Z ltac:(lia)) as Hloop.
  by destruct (loop _ _ _ _ _ _ _) as [[st acts] h2].
Qed.

(** A call that has a channel does not end in the [TypeError] of the
    channel check. *)
Lemma run_resolved_no_type_error self (h : heap Embed) users channel c
    sent_id evs :
  resolve_channel channel (self_message self) = inr c ->
  final (run self h users channel sent_id evs) <> Raised TypeError.
Proof.
  intros Hc Hfinal. destruct (pages self) as [|page rest] eqn:Hpages.
  - unfold run in Hfinal. by rewrite Hc, Hpages in Hfinal.
  - pose proof (run_resolved_in_range self h users channel c sent_id evs Hc)
      as Hrange.
    rewrite Hfinal, Hpages in Hrange. by apply Hrange.
Qed.

(** C7: [run] ends in the [TypeError] of the channel check exactly when
    no channel is passed and the paginator holds no message, and then
    nothing has been sent. With no channel passed and a message held,
    the channel is the one of that message: the call is the call on
    that channel and does not end in the [TypeError]. *)
Theorem run_missing_channel self (h : heap Embed) users channel sent_id evs :
  (final (run self h users channel sent_id evs) = Raised TypeError <->
   channel = None /\ self_message self = None) /\
  (channel = None -> self_message self = None ->
   run self h users channel sent_id evs
   = {| final := Raised TypeError; log := [];
        live_message := None; store := h |}) /\
  (forall m,
     channel = None -> self_message self = Some m ->
     resolve_channel channel (self_message self) = inr (Session.channel m) /\
     run self h users channel sent_id evs
     = run self h users (Some (Session.channel m)) sent_id evs /\
     final (run self h users channel sent_id evs) <> Raised TypeError).
Proof.
  split_and!.
  - split.
    + intros Hfinal.
      destruct (resolve_channel channel (self_message self)) as [err|c]
        eqn:Hc.
      * by destruct channel, (self_message self).
      * by destruct (run_resolved_no_type_error self h users channel c
                       sent_id evs Hc).
    + intros [-> Hm]. unfold run. by rewrite Hm.
  - intros -> Hm. unfold run. by rewrite Hm.
  - intros m -> Hm. split_and!.
    + by rewrite Hm.
    + unfold run. by rewrite Hm.
    + eapply run_resolved_no_type_error. by rewrite Hm.
Qed.

Lemma run_missing_channel_witness :
  let c := {| channel_id := 1; kind := TextChannel |} in
  let m := {| id := 5; channel := c |} in
  let self := {| pages := [0; 1]; self_message := Some m;
                 control_emojis := default_control_emojis |} in
  resolve_channel None (self_message self) = inr c /\
  run self [inhabitant; inhabitant] [] None 7 [Timeout]
  = run self [inhabitant; inhabitant] [] (Some c) 7 [Timeout] /\
  final (run self [inhabitant; inhabitant] [] None 7 [Timeout])
  <> Raised TypeError.
Proof.
  intros c m self.
  destruct (run_missing_channel self [inhabitant; inhabitant] [] None 7
              [Timeout]) as (_ & _ & Hderived).
  exact (Hderived m eq_refl eq_refl).
Defined.

(** C5 (amended): for a paginator with exactly one page and a channel
    to send to, [run] sends one message, holding that page as the
    caller built it, without a position marker; it adds no reaction,
    consumes no event and returns. *)
Theorem run_single_page self (h : heap Embed) users channel sent_id evs
    page c :
  pages self = [page] ->
  resolve_channel channel (self_message self) = inr c ->
  run self h users channel sent_id evs
  = {| final := Closed; log := [Send c (deref h page)];
       live_message := Some {| id := sent_id; channel := c |};
       store := h |}.
Proof. intros Hpages Hc. unfold run. by rewrite Hc, Hpages. Qed.

Lemma run_single_page_witness :
  let c := {| channel_id := 1; kind := TextChannel |} in
  let page := {| title := "A"; description := ""; footer := empty_footer |} in
  let self := {| pages := [0]; self_message := None;
                 control_emojis := default_control_emojis |} in
  run self [page] [] (Some c) 7 [Timeout]
  = {| final := Closed; log := [Send c page];
       live_message := Some {| id := 7; channel := c |};
       store := [page] |}.
Proof.
  intros c page self.
  apply (run_single_page self [page] [] (Some c) 7 [Timeout] 0 c);
    reflexivity.
Defined.

(** C5, refuted as stated: the one message sent for a single page with
    an empty footer has an empty footer, not the footer [(1/1)] that
    [formatted_pages] gives that page. *)
Lemma run_single_page_unformatted :
  let c := {| channel_id := 1; kind := TextChannel |} in
  let page := {| title := "A"; description := ""; footer := empty_footer |} in
  let self := {| pages := [0]; self_message := None;
                 control_emojis := default_control_emojis |} in
  log (run self [page] [] (Some c) 7 []) = [Send c page] /\
  formatted_pages [0] [page]
  = Some ([1], [page; set_footer (Some "(1/1)") None page]) /\
  log (run self [page] [] (Some c) 7 [])
  <> [Send c (set_footer (Some "(1/1)") None page)].
Proof. by split_and!. Qed.

(** *** A session from start to end *)

(** Three pages with empty footers: [next], [next], [next], [first] show
    pages 2, 3, 3 and 1, each with its marker, and leave the session
    waiting at index 0. *)
Example run_three_pages :
  let c := {| channel_id := 1; kind := TextChannel |} in
  let live := {| id := 7; channel := c |} in
  let u := {| user_id := 3 |} in
  let page t := {| title := t; description := ""; footer := empty_footer |} in
  let shown t m := set_footer (Some m) None (page t) in
  let self := {| pages := [0; 1; 2]; self_message := None;
                 control_emojis := default_control_emojis |} in
  let next := {| message := live; emoji := "▶" |} in
  let first := {| message := live; emoji := "⏮" |} in
  let out := run self [page "A"; page "B"; page "C"] [u] (Some c) 7
               [ReactionAdd next u; ReactionAdd next u; ReactionAdd next u;
                ReactionAdd first u] in
  final out = Active 0 /\
  log out
  = Send c (shown "A" "(1/3)")
    :: (AddReaction live <$> ["⏮"; "◀"; "▶"; "⏭"; "⏹"])
    ++ [Edit live (shown "B" "(2/3)"); RemoveReaction live next u;
        Edit live (shown "C" "(3/3)"); RemoveReaction live next u;
        Edit live (shown "C" "(3/3)"); RemoveReaction live next u;
        Edit live (shown "A" "(1/3)"); RemoveReaction live first u].
Proof. by vm_compute. Qed.

End SessionFacts.


(** ** The chunker: shape of the result *)

Module ChunkerShape.
Import Chunker ChunkerFacts.

Section shape.
Context {A : Type}.

(** The [if] around the loop changes nothing: the loop entered with a
    list that is not longer returns the list itself at once. *)
Lemma generate_sub_lists_loop fuel (h : heap (list A)) r k :
  generate_sub_lists fuel h r k = chunk_loop fuel k r [] h.
Proof.
  unfold generate_sub_lists.
  destruct (longer_than k (deref h r)) eqn:Hl; [done|].
  by destruct fuel; cbn [chunk_loop]; rewrite Hl.
Qed.

(** The slices are the next objects of the store, in the order they are
    cut; with a positive bound each holds exactly [max_len] elements and
    the list is only emptied if it was empty. *)
Lemma chunk_loop_layout k fuel : forall r subs (h : heap (list A)) l res h',
  h !! r = Some l ->
  chunk_loop fuel k r subs h = Some (res, h') ->
  exists m final,
    res = subs ++ seq (length h) m ++ [r] /\
    length h' = length h + m /\
    h' !! r = Some final /\
    ((1 <= k)%Z ->
     (forall j, j < m ->
        exists c, h' !! (length h + j) = Some c /\ length c = Z.to_nat k) /\
     length l = m * Z.to_nat k + length final /\
     length final <= Z.to_nat k /\
     (l <> [] -> final <> [])).
Proof.
  induction fuel as [|fuel IH]; intros r subs h l res h' Hr Hrun;
    pose proof Hrun as Hrun0;
    cbn [chunk_loop] in Hrun; rewrite (deref_lookup _ _ _ Hr) in Hrun;
    destruct (longer_than k l) eqn:Hl; try discriminate.
  1,3: injection Hrun as <- <-; exists 0, l; cbn [seq app];
    split_and!; [done | lia | done |]; intros Hk;
    apply longer_than_false in Hl; split_and!; [lia | lia | lia | done].
  pose proof (lookup_lt_Some _ _ _ Hr) as Hlt.
  unfold alloc in Hrun.
  set (h1 := h ++ [slice_to k l]) in *.
  set (h2 := update r (del_to k l) h1) in *.
  assert (Hlen2 : length h2 = S (length h)).
  { subst h2 h1. rewrite length_update, length_app. cbn. lia. }
  assert (Hr2 : h2 !! r = Some (del_to k l)).
  { apply lookup_update_eq. subst h1. rewrite length_app. lia. }
  destruct (IH _ _ _ _ _ _ Hr2 Hrun) as (m & final & -> & Hlen & Hfin & Hpos).
  destruct (chunk_loop_returns _ _ _ _ _ _ _ _ Hr2 Hrun)
    as (_ & _ & _ & _ & _ & _ & _ & _ & _ & Hframe).
  assert (Hs : h' !! length h = Some (slice_to k l)).
  { rewrite Hframe by lia. subst h2. rewrite lookup_update_ne by lia.
    subst h1. rewrite lookup_app_r by lia. by rewrite Nat.sub_diag. }
  exists (S m), final. rewrite Hlen2 in *. split_and!.
  - cbn [seq]. by rewrite <- !app_assoc.
  - lia.
  - done.
  - intros Hk. destruct (Hpos Hk) as (Hchunks & Hsum & Hle & Hne).
    destruct (length_del_to_pos k l Hk Hl) as [Hdel Hdec].
    pose proof Hl as Hl'. apply longer_than_spec in Hl'.
    split_and!.
    + intros [|j] Hj.
      * rewrite Nat.add_0_r. exists (slice_to k l). split; [done|].
        rewrite length_slice_to. unfold slice_stop.
        rewrite bool_decide_eq_true_2 by lia. lia.
      * destruct (Hchunks j ltac:(lia)) as (c & Hc & Hclen).
        exists c. split; [|done].
        by replace (length h + S j) with (S (length h) + j) by lia.
    + lia.
    + done.
    + intros _. apply Hne. intros Hnil.
      rewrite Hnil in Hdel. cbn in Hdel. lia.
Qed.

(** X1: for a chunk size of one or more the result has one sublist for
    every [max_len] elements begun (and one for the empty list); every
    sublist before the last holds exactly [max_len] elements, and the
    last holds at most [max_len] and is empty only for the empty list. *)
Theorem generate_sub_lists_sizes (h : heap (list A)) r (items : list A) k :
  h !! r = Some items -> (1 <= k)%Z ->
  exists subs h' last_chunk,
    generate_sub_lists (length items) h r k = Some (subs, h') /\
    length subs = S ((length items - 1) / Z.to_nat k) /\
    (forall i c,
       S i < length subs -> contents h' subs !! i = Some c ->
       length c = Z.to_nat k) /\
    last (contents h' subs) = Some last_chunk /\
    length last_chunk <= Z.to_nat k /\
    (items <> [] -> last_chunk <> []).
Proof.
  intros Hr Hk. rewrite generate_sub_lists_loop.
  destruct (chunk_loop_terminates k Hk (length items) r [] h items Hr)
    as [[res h'] Hrun]; [done|].
  destruct (chunk_loop_layout _ _ _ _ _ _ _ _ Hr Hrun)
    as (m & final & -> & Hlen & Hfin & Hpos).
  destruct (Hpos Hk) as (Hchunks & Hsum & Hle & Hne).
  exists (seq (length h) m ++ [r]), h', final. cbn [app].
  rewrite length_app, length_seq. cbn [length].
  split_and!; [done | | | | done | done].
  - rewrite Nat.add_1_r. f_equal.
    set (kn := Z.to_nat k) in *. assert (Hkn : 1 <= kn) by lia.
    destruct (decide (length final = 0)) as [H0|H0].
    + destruct items as [|x items].
      * destruct m as [|m]; [|cbn in Hsum; lia].
        symmetry. apply Nat.div_small. cbn. lia.
      * apply length_zero_iff_nil in H0. by destruct Hne.
    + apply (Nat.div_unique _ _ _ (length final - 1)); [lia|].
      rewrite (Nat.mul_comm kn m). lia.
  - intros i c Hi Hc. unfold contents in Hc.
    rewrite list_lookup_fmap, lookup_app_l in Hc
      by (rewrite length_seq; lia).
    rewrite lookup_seq_lt in Hc by lia. cbn in Hc.
    destruct (Hchunks i ltac:(lia)) as (c' & Hc' & Hclen).
    rewrite (deref_lookup _ _ _ Hc') in Hc. by injection Hc as <-.
  - unfold contents. rewrite fmap_app, fmap_cons, fmap_nil, last_snoc.
    by rewrite (deref_lookup _ _ _ Hfin).
Qed.

(** X2: a call that returns has handed out pairwise distinct objects:
    new ones for the slices, then the caller's list; every other list
    of the store is what it was. *)
Theorem generate_sub_lists_distinct_objects (h : heap (list A)) r
    (origin_list : list A) k fuel subs h' :
  h !! r = Some origin_list ->
  generate_sub_lists fuel h r k = Some (subs, h') ->
  NoDup subs /\
  Forall (fun s => s = r \/ length h <= s < length h') subs /\
  forall r' l, r' <> r -> h !! r' = Some l -> h' !! r' = Some l.
Proof.
  intros Hr Hrun. rewrite generate_sub_lists_loop in Hrun.
  pose proof (lookup_lt_Some _ _ _ Hr) as Hlt.
  destruct (chunk_loop_layout _ _ _ _ _ _ _ _ Hr Hrun)
    as (m & final & -> & Hlen & Hfin & _).
  destruct (chunk_loop_returns _ _ _ _ _ _ _ _ Hr Hrun)
    as (_ & _ & _ & _ & _ & _ & _ & _ & _ & Hframe).
  cbn [app]. split_and!.
  - apply NoDup_app. split_and!; [apply NoDup_seq | | apply NoDup_singleton].
    intros s Hs%elem_of_seq ->%list_elem_of_singleton. lia.
  - apply Forall_app. split; [|by repeat constructor; left].
    apply Forall_forall. intros s Hs%elem_of_seq. right. lia.
  - intros r' l Hne Hl. rewrite Hframe; [done | | done].
    by eapply lookup_lt_Some.
Qed.

(** X3: the empty list. With [max_len] of zero or more it comes back as
    the only sublist, the very object, whatever the fuel; with a
    negative [max_len] the loop is entered and the call never returns. *)
Theorem generate_sub_lists_empty (h : heap (list A)) r k :
  h !! r = Some [] ->
  ((0 <= k)%Z -> forall fuel, generate_sub_lists fuel h r k = Some ([r], h)) /\
  ((k < 0)%Z -> forall fuel, generate_sub_lists fuel h r k = None).
Proof.
  intros Hr. unfold generate_sub_lists. rewrite (deref_lookup _ _ _ Hr).
  split; intros Hk fuel.
  - by rewrite (proj2 (longer_than_false k [])) by (cbn; lia).
  - rewrite (proj2 (longer_than_spec k [])) by (cbn; lia).
    eapply chunk_loop_diverges; [lia | done |].
    apply longer_than_spec. cbn. lia.
Qed.

(** X4: chunking the same list object a second time gives the final
    chunk only: after a call that returned, the caller's list is no
    longer than [max_len], so the next call returns it alone and
    changes nothing. *)
Theorem generate_sub_lists_twice (h : heap (list A)) r
    (origin_list : list A) k fuel subs h' :
  h !! r = Some origin_list ->
  generate_sub_lists fuel h r k = Some (subs, h') ->
  exists final,
    h' !! r = Some final /\
    last (contents h' subs) = Some final /\
    forall fuel', generate_sub_lists fuel' h' r k = Some ([r], h').
Proof.
  intros Hr Hrun. rewrite generate_sub_lists_loop in Hrun.
  destruct (chunk_loop_returns _ _ _ _ _ _ _ _ Hr Hrun)
    as (new & final & -> & Hfin & Hstop & _).
  exists final. split_and!; [done | |].
  - cbn [app]. unfold contents.
    rewrite fmap_app, fmap_cons, fmap_nil, last_snoc.
    by rewrite (deref_lookup _ _ _ Hfin).
  - intros fuel'. unfold generate_sub_lists.
    by rewrite (deref_lookup _ _ _ Hfin), Hstop.
Qed.
End shape.

Lemma generate_sub_lists_sizes_witness :
  exists subs h' last_chunk,
    generate_sub_lists 5 [[1; 2; 3; 4; 5]] 0 2%Z = Some (subs, h') /\
    length subs = S ((5 - 1) / Z.to_nat 2) /\
    (forall i c,
       S i < length subs -> contents h' subs !! i = Some c ->
       length c = Z.to_nat 2) /\
    last (contents h' subs) = Some last_chunk /\
    length last_chunk <= Z.to_nat 2 /\
    ([1; 2; 3; 4; 5] <> [] -> last_chunk <> []).
Proof.
  apply (generate_sub_lists_sizes [[1; 2; 3; 4; 5]] 0 [1; 2; 3; 4; 5] 2%Z).
  - reflexivity.
  - lia.
Defined.

Lemma generate_sub_lists_distinct_objects_witness :
  NoDup [1; 2; 0] /\
  Forall (fun s => s = 0 \/ 1 <= s < 3) [1; 2; 0] /\
  forall r' l,
    r' <> 0 -> [[1; 2; 3; 4; 5]] !! r' = Some l ->
    [[5]; [1; 2]; [3; 4]] !! r' = Some l.
Proof.
  apply (generate_sub_lists_distinct_objects [[1; 2; 3; 4; 5]] 0
           [1; 2; 3; 4; 5] 2%Z 5 [1; 2; 0] [[5]; [1; 2]; [3; 4]]);
    reflexivity.
Defined.

Lemma generate_sub_lists_empty_witness :
  (forall fuel, generate_sub_lists fuel [@nil nat] 0 0%Z = Some ([0], [[]])) /\
  (forall fuel, generate_sub_lists fuel [@nil nat] 0 (-3)%Z = None).
Proof.
  split.
  - apply (generate_sub_lists_empty [[]] 0 0%Z); [reflexivity | lia].
  - apply (generate_sub_lists_empty [[]] 0 (-3)%Z); [reflexivity | lia].
Defined.

Lemma generate_sub_lists_twice_witness :
  exists final,
    [[5]; [1; 2]; [3; 4]] !! 0 = Some final /\
    last (contents [[5]; [1; 2]; [3; 4]] [1; 2; 0]) = Some final /\
    forall fuel',
      generate_sub_lists fuel' [[5]; [1; 2]; [3; 4]] 0 2%Z
      = Some ([0], [[5]; [1; 2]; [3; 4]]).
Proof.
  apply (generate_sub_lists_twice [[1; 2; 3; 4; 5]] 0 [1; 2; 3; 4; 5] 2%Z 5
           [1; 2; 0] [[5]; [1; 2]; [3; 4]]); reflexivity.
Defined.

End ChunkerShape.

(** ** The formatter: shape of the result *)

Module FormatterShape.
Import Trace.

(** *** The copy *)

(** The memo the copy ends with sends every page to its copy, one to
    one; a copy is a new object that holds what the page held. [h0] is
    the caller's store. *)
Lemma deepcopy_memo_sharing (h0 : heap Embed) pages :
  forall (memo : gmap nat nat) (h : heap Embed) out h1,
    Forall (fun page => page < length h0) pages ->
    keeps h0 h ->
    length h0 <= length h ->
    (forall p c, memo !! p = Some c ->
                 length h0 <= c < length h /\ h !! c = h0 !! p) ->
    (forall p q c, memo !! p = Some c -> memo !! q = Some c -> p = q) ->
    deepcopy_memo memo pages h = (out, h1) ->
    exists memo' : gmap nat nat,
      memo ⊆ memo' /\
      keeps h h1 /\
      length h <= length h1 /\
      (forall p c, memo' !! p = Some c ->
                   length h0 <= c < length h1 /\ h1 !! c = h0 !! p) /\
      (forall p q c, memo' !! p = Some c -> memo' !! q = Some c -> p = q) /\
      Forall2 (fun p c => memo' !! p = Some c) pages out.
Proof.
  induction pages as [|page rest IH];
    intros memo h out h1 Hvalid Hkeep Hlen Hmemo Hinj Hrun;
    cbn [deepcopy_memo] in Hrun.
  { injection Hrun as <- <-. exists memo. split_and!; try done.
    by intros r e. }
  apply Forall_cons in Hvalid as [Hpage Hvalid].
  destruct (memo !! page) as [copy|] eqn:Hlook.
  - destruct (deepcopy_memo memo rest h) as [out' h'] eqn:Hrest.
    injection Hrun as <- <-.
    destruct (IH _ _ _ _ Hvalid Hkeep Hlen Hmemo Hinj Hrest)
      as (memo' & Hsub & Hk & Hl & Hm' & Hi' & Hall).
    exists memo'. split_and!; try done.
    constructor; [|done]. by eapply lookup_weaken.
  - unfold alloc in Hrun.
    destruct (deepcopy_memo (<[page:=length h]> memo) rest
                (h ++ [deref h page])) as [out' h'] eqn:Hrest.
    injection Hrun as <- <-.
    destruct (lookup_lt_is_Some_2 h0 page Hpage) as [e He].
    assert (Hcopy : deref h page = e).
    { apply deref_lookup. by apply Hkeep. }
    assert (Hkeep1 : keeps h (h ++ [deref h page])).
    { intros r e' Hr. by apply lookup_app_l_Some. }
    assert (Hlen1 : length (h ++ [deref h page]) = S (length h)).
    { rewrite length_app. cbn. lia. }
    destruct (IH (<[page:=length h]> memo) (h ++ [deref h page]) out' h')
      as (memo' & Hsub & Hk & Hl & Hm' & Hi' & Hall); try done.
    + intros r e' Hr. by apply Hkeep1, Hkeep.
    + lia.
    + intros p c Hp. destruct (decide (p = page)) as [->|Hne].
      * rewrite lookup_insert_eq in Hp. injection Hp as <-.
        split; [lia|]. rewrite lookup_app_r by lia.
        rewrite Nat.sub_diag. cbn. by rewrite Hcopy, He.
      * rewrite lookup_insert_ne in Hp by done.
        destruct (Hmemo _ _ Hp) as [Hc Hhc]. split; [lia|].
        by rewrite lookup_app_l by lia.
    + intros p q c Hp Hq.
      destruct (decide (p = page)) as [->|Hpne],
               (decide (q = page)) as [->|Hqne]; [done| | |].
      * rewrite lookup_insert_eq in Hp. injection Hp as <-.
        rewrite lookup_insert_ne in Hq by done.
        destruct (Hmemo _ _ Hq) as [Hc _]. lia.
      * rewrite lookup_insert_eq in Hq. injection Hq as <-.
        rewrite lookup_insert_ne in Hp by done.
        destruct (Hmemo _ _ Hp) as [Hc _]. lia.
      * rewrite lookup_insert_ne in Hp, Hq by done. by eapply Hinj.
    + exists memo'. split_and!; try done.
      * etrans; [|exact Hsub]. by apply insert_subseteq.
      * intros r e' Hr. by apply Hk, Hkeep1.
      * lia.
      * constructor; [|done].
        eapply lookup_weaken; [|exact Hsub]. apply lookup_insert_eq.
Qed.

(** *** The loop *)

(** One pass of the body replaces the footer of the page it visits and
    nothing else; the new footer has a text. *)
Lemma format_page_effect (pages : list loc) page (h h1 : heap Embed) :
  format_page pages page h = Some h1 ->
  exists e1,
    h1 = update page e1 h /\
    title e1 = title (deref h page) /\
    description e1 = description (deref h page) /\
    is_Some (text (footer e1)).
Proof.
  unfold format_page. intros Hrun.
  destruct (index pages page) as [i|]; cbn in Hrun.
  - destruct (text (footer (deref h page))) as [t|];
      [destruct (icon_url (footer (deref h page)))|];
      injection Hrun as <-; eexists; split_and!; try done; by eexists.
  - by destruct (text (footer (deref h page))).
Qed.

(** The loop leaves title and description of every object alone, and
    leaves a footer text on every object it visits. *)
Lemma format_loop_effect (pages : list loc) todo : forall h h' : heap Embed,
  format_loop pages todo h = Some h' ->
  forall r e,
    h !! r = Some e ->
    exists e',
      h' !! r = Some e' /\
      title e' = title e /\
      description e' = description e /\
      (is_Some (text (footer e)) \/ r ∈ todo -> is_Some (text (footer e'))).
Proof.
  induction todo as [|page rest IH]; intros h h' Hrun r e Hr;
    cbn [format_loop] in Hrun.
  { injection Hrun as <-. exists e. split_and!; try done.
    intros [?|Hin]; [done|]. by apply elem_of_nil in Hin. }
  destruct (format_page pages page h) as [h1|] eqn:Hpage; [|done].
  cbn in Hrun.
  destruct (format_page_effect _ _ _ _ Hpage) as (e1 & -> & Ht & Hd & Htext).
  destruct (decide (r = page)) as [->|Hne].
  - rewrite (deref_lookup _ _ _ Hr) in Ht, Hd.
    destruct (IH _ _ Hrun page e1) as (e' & He' & Ht' & Hd' & Htext').
    { apply lookup_update_eq. by eapply lookup_lt_Some. }
    exists e'. split_and!; [done | congruence | congruence |].
    intros _. apply Htext'. by left.
  - destruct (IH _ _ Hrun r e) as (e' & He' & Ht' & Hd' & Htext').
    { by rewrite lookup_update_ne. }
    exists e'. split_and!; try done.
    intros [?|Hin]; apply Htext'; [by left|].
    right. by apply elem_of_cons in Hin as [?|?].
Qed.

(** *** The property *)

(** Everything the formatter guarantees for pages that are in the store,
    shared or not. *)
Lemma formatted_pages_shape (self_pages : list loc) (h : heap Embed) :
  Forall (fun page => page < length h) self_pages ->
  exists out h',
    formatted_pages self_pages h = Some (out, h') /\
    length out = length self_pages /\
    keeps h h' /\
    length h <= length h' /\
    (forall i j p q c d,
       self_pages !! i = Some p -> self_pages !! j = Some q ->
       out !! i = Some c -> out !! j = Some d ->
       c = d <-> p = q) /\
    (forall i p c,
       self_pages !! i = Some p -> out !! i = Some c ->
       length h <= c /\
       exists e',
         h' !! c = Some e' /\
         title e' = title (deref h p) /\
         description e' = description (deref h p) /\
         is_Some (text (footer e'))).
Proof.
  intros Hvalid. unfold formatted_pages, deepcopy.
  destruct (deepcopy_memo ∅ self_pages h) as [pages h1] eqn:Hcopy.
  destruct (deepcopy_memo_sharing h self_pages ∅ h pages h1)
    as (memo & _ & Hkeep & Hlen & Hmemo & Hinj & Hall); try done.
  { by intros r e. }
  destruct (format_loop_frame pages pages h1) as (h2 & Hrun & Hlen2 & Hframe).
  { by apply Forall_forall. }
  rewrite Hrun. cbn [mbind option_bind]. exists pages, h2.
  split_and!; [done | by eapply eq_sym, Forall2_length | | lia | |].
  - intros r e Hr. rewrite Hframe; [by apply Hkeep|].
    intros Hin. apply list_elem_of_lookup in Hin as [i Hi].
    destruct (Forall2_lookup_r _ _ _ _ _ Hall Hi) as (p & _ & Hp).
    destruct (Hmemo _ _ Hp) as [Hc _]. apply lookup_lt_Some in Hr. lia.
  - intros i j p q c d Hp Hq Hc Hd.
    pose proof (Forall2_lookup_lr _ _ _ _ _ _ Hall Hp Hc) as Hpc.
    pose proof (Forall2_lookup_lr _ _ _ _ _ _ Hall Hq Hd) as Hqd.
    cbn in Hpc, Hqd. split.
    + intros ->. by eapply Hinj.
    + intros ->. congruence.
  - intros i p c Hp Hc.
    pose proof (Forall2_lookup_lr _ _ _ _ _ _ Hall Hp Hc) as Hpc.
    cbn in Hpc. destruct (Hmemo _ _ Hpc) as [Hrange Hcontent].
    split; [lia|].
    rewrite Forall_forall in Hvalid.
    destruct (lookup_lt_is_Some_2 h p) as [e He].
    { apply Hvalid. by eapply list_elem_of_lookup_2. }
    rewrite He in Hcontent.
    destruct (format_loop_effect _ _ _ _ Hrun c e Hcontent)
      as (e' & He' & Ht & Hd & Htext).
    exists e'. rewrite (deref_lookup _ _ _ He). split_and!; try done.
    apply Htext. right. by eapply list_elem_of_lookup_2.
Qed.

(** X5: for pairwise distinct page objects the formatter returns pairwise
    distinct new objects, and the one at position [i] holds page [i]
    with the footer the loop body gives position [i]: the marker alone
    on a footer without text, appended after a dash otherwise, the icon
    kept only where there was text. *)
Theorem formatted_pages_markers (self_pages : list loc) (h : heap Embed) :
  NoDup self_pages ->
  Forall (fun page => page < length h) self_pages ->
  exists out h',
    formatted_pages self_pages h = Some (out, h') /\
    NoDup out /\
    forall i page,
      self_pages !! i = Some page ->
      exists copy,
        out !! i = Some copy /\
        length h <= copy /\
        h' !! copy = Some (annotated i (length self_pages) (deref h page)).
Proof.
  intros Hnd Hvalid.
  destruct (formatted_pages_distinct self_pages h Hnd Hvalid)
    as (out & h' & Hrun & Hlen & Hann).
  destruct (formatted_pages_shape self_pages h Hvalid)
    as (out2 & h2 & Hrun2 & _ & _ & _ & Hshare & Hfresh).
  rewrite Hrun in Hrun2. injection Hrun2 as <- <-.
  exists out, h'. split_and!; [done | |].
  - apply NoDup_alt. intros i j c Hi Hj.
    destruct (lookup_lt_is_Some_2 self_pages i) as [p Hp].
    { rewrite <- Hlen. by eapply lookup_lt_Some. }
    destruct (lookup_lt_is_Some_2 self_pages j) as [q Hq].
    { rewrite <- Hlen. by eapply lookup_lt_Some. }
    assert (p = q) as <- by by apply (Hshare i j p q c c).
    by eapply NoDup_lookup.
  - intros i page Hi. destruct (Hann i page Hi) as (copy & Hcopy & Hpage).
    exists copy. split_and!; [done | | done].
    by destruct (Hfresh i page copy Hi Hcopy).
Qed.

(** X6: the output shares objects exactly as the input does: two
    positions of the result hold the same object if and only if the
    same two positions of the input do. *)
Theorem formatted_pages_sharing (self_pages : list loc) (h : heap Embed) :
  Forall (fun page => page < length h) self_pages ->
  exists out h',
    formatted_pages self_pages h = Some (out, h') /\
    length out = length self_pages /\
    forall i j p q c d,
      self_pages !! i = Some p -> self_pages !! j = Some q ->
      out !! i = Some c -> out !! j = Some d ->
      c = d <-> p = q.
Proof.
  intros Hvalid.
  destruct (formatted_pages_shape self_pages h Hvalid)
    as (out & h' & Hrun & Hlen & _ & _ & Hshare & _).
  by exists out, h'.
Qed.

(** X7: whatever the list, shared pages included, the formatter changes
    footers only: output page [i] has the title and the description of
    input page [i], and every output page has a footer text. *)
Theorem formatted_pages_content (self_pages : list loc) (h : heap Embed) :
  Forall (fun page => page < length h) self_pages ->
  exists out h',
    formatted_pages self_pages h = Some (out, h') /\
    forall i page,
      self_pages !! i = Some page ->
      exists copy e',
        out !! i = Some copy /\
        h' !! copy = Some e' /\
        title e' = title (deref h page) /\
        description e' = description (deref h page) /\
        is_Some (text (footer e')).
Proof.
  intros Hvalid.
  destruct (formatted_pages_shape self_pages h Hvalid)
    as (out & h' & Hrun & Hlen & _ & _ & _ & Hcontent).
  exists out, h'. split; [done|]. intros i page Hi.
  destruct (lookup_lt_is_Some_2 out i) as [copy Hcopy].
  { rewrite Hlen. by eapply lookup_lt_Some. }
  destruct (Hcontent i page copy Hi Hcopy) as (_ & e' & He').
  by exists copy, e'.
Qed.

(** X8: reading the property again gives the same pages again. Over
    pairwise distinct page objects a second call, in the store the
    first one left, returns objects other than the first ones that
    hold the same embeds, markers not doubled, and leaves the first
    result as it was. *)
Theorem formatted_pages_again (self_pages : list loc) (h : heap Embed)
    out1 h1 :
  NoDup self_pages ->
  Forall (fun page => page < length h) self_pages ->
  formatted_pages self_pages h = Some (out1, h1) ->
  exists out2 h2,
    formatted_pages self_pages h1 = Some (out2, h2) /\
    deref h2 <$> out2 = deref h1 <$> out1 /\
    deref h2 <$> out1 = deref h1 <$> out1 /\
    forall copy, copy ∈ out1 -> copy ∉ out2.
Proof.
  intros Hnd Hvalid Hrun1.
  destruct (formatted_pages_distinct self_pages h Hnd Hvalid)
    as (out & h' & Hrun & Hlen1 & Hann1).
  rewrite Hrun1 in Hrun. injection Hrun as <- <-.
  destruct (formatted_pages_shape self_pages h Hvalid)
    as (out & h' & Hrun & _ & Hkeep1 & Hgrow1 & _).
  rewrite Hrun1 in Hrun. injection Hrun as <- <-.
  assert (Hvalid1 : Forall (fun page => page < length h1) self_pages).
  { eapply Forall_impl; [exact Hvalid|]. cbn. intros. lia. }
  destruct (formatted_pages_distinct self_pages h1 Hnd Hvalid1)
    as (out2 & h2 & Hrun2 & Hlen2 & Hann2).
  destruct (formatted_pages_shape self_pages h1 Hvalid1)
    as (out & h' & Hrun & _ & Hkeep2 & _ & _ & Hfresh2).
  rewrite Hrun2 in Hrun. injection Hrun as <- <-.
  assert (Hold : forall copy, copy ∈ out1 -> is_Some (h1 !! copy)).
  { intros copy [i Hi]%list_elem_of_lookup.
    destruct (lookup_lt_is_Some_2 self_pages i) as [page Hp].
    { rewrite <- Hlen1. by eapply lookup_lt_Some. }
    destruct (Hann1 i page Hp) as (copy' & Hcopy' & Hshown).
    assert (copy' = copy) as -> by congruence. by eexists. }
  exists out2, h2. split_and!; [done | | |].
  - apply list_eq. intros i. rewrite !list_lookup_fmap.
    destruct (self_pages !! i) as [page|] eqn:Hp.
    + destruct (Hann1 i page Hp) as (c1 & -> & Hc1).
      destruct (Hann2 i page Hp) as (c2 & -> & Hc2).
      cbn. rewrite (deref_lookup _ _ _ Hc1), (deref_lookup _ _ _ Hc2).
      do 2 f_equal. rewrite Forall_forall in Hvalid.
      destruct (lookup_lt_is_Some_2 h page) as [e He].
      { apply Hvalid. by eapply list_elem_of_lookup_2. }
      rewrite (deref_lookup _ _ _ He). apply deref_lookup. by apply Hkeep1.
    + apply lookup_ge_None in Hp.
      rewrite (proj2 (lookup_ge_None out1 i)), (proj2 (lookup_ge_None out2 i));
        [done | lia | lia].
  - apply list_fmap_ext. intros i copy Hi.
    destruct (Hold copy) as [e He]; [by eapply list_elem_of_lookup_2|].
    rewrite (deref_lookup _ _ _ He). apply deref_lookup. by apply Hkeep2.
  - intros copy Hin1 [j Hj]%list_elem_of_lookup.
    destruct (Hold copy Hin1) as [e He%lookup_lt_Some].
    destruct (lookup_lt_is_Some_2 self_pages j) as [page Hp].
    { rewrite <- Hlen2. by eapply lookup_lt_Some. }
    destruct (Hfresh2 j page copy Hp Hj) as [Hge _]. lia.
Qed.

Lemma formatted_pages_markers_witness :
  let a := {| title := "A"; description := ""; footer := empty_footer |} in
  let b := {| title := "B"; description := "";
              footer := {| text := Some "hi"; icon_url := Some "i.png" |} |} in
  exists out h',
    formatted_pages [0; 1] [a; b] = Some (out, h') /\
    NoDup out /\
    forall i page,
      [0; 1] !! i = Some page ->
      exists copy,
        out !! i = Some copy /\
        2 <= copy /\
        h' !! copy = Some (annotated i 2 (deref [a; b] page)).
Proof.
  intros a b. apply (formatted_pages_markers [0; 1] [a; b]).
  - apply NoDup_cons. split; [|apply NoDup_singleton].
    intros Hin%list_elem_of_singleton. discriminate.
  - repeat constructor.
Defined.

Lemma formatted_pages_sharing_witness :
  let a := {| title := "A"; description := ""; footer := empty_footer |} in
  exists out h',
    formatted_pages [0; 0; 1] [a; a] = Some (out, h') /\
    length out = 3 /\
    forall i j p q c d,
      [0; 0; 1] !! i = Some p -> [0; 0; 1] !! j = Some q ->
      out !! i = Some c -> out !! j = Some d ->
      c = d <-> p = q.
Proof.
  intros a. apply (formatted_pages_sharing [0; 0; 1] [a; a]).
  repeat constructor.
Defined.

Lemma formatted_pages_content_witness :
  let a := {| title := "A"; description := "d"; footer := empty_footer |} in
  exists out h',
    formatted_pages [0; 0] [a] = Some (out, h') /\
    forall i page,
      [0; 0] !! i = Some page ->
      exists copy e',
        out !! i = Some copy /\
        h' !! copy = Some e' /\
        title e' = title (deref [a] page) /\
        description e' = description (deref [a] page) /\
        is_Some (text (footer e')).
Proof.
  intros a. apply (formatted_pages_content [0; 0] [a]).
  repeat constructor.
Defined.

Lemma formatted_pages_again_witness :
  let a := {| title := "A"; description := ""; footer := empty_footer |} in
  let a1 := set_footer (Some "(1/1)") None a in
  exists out2 h2,
    formatted_pages [0] [a; a1] = Some (out2, h2) /\
    deref h2 <$> out2 = deref [a; a1] <$> [1] /\
    deref h2 <$> [1] = deref [a; a1] <$> [1] /\
    forall copy, copy ∈ [1] -> copy ∉ out2.
Proof.
  intros a a1. apply (formatted_pages_again [0] [a] [1] [a; a1]).
  - apply NoDup_singleton.
  - repeat constructor.
  - reflexivity.
Defined.

End FormatterShape.

(** ** The session: what a run does and never does *)

Module SessionTrace.
Import Trace FormatterShape SessionFacts.

(** *** The loop as a fold *)

(** A session that has returned handles no further event. *)
Lemma loop_done self users c live (h : heap Embed) st evs :
  (forall current, st <> Active current) ->
  loop self users c live h st evs = (st, [], h).
Proof.
  intros Hst. destruct st as [current| |err]; [|by destruct evs..].
  by destruct (Hst current).
Qed.

Lemma loop_nil self users c live (h : heap Embed) st :
  loop self users c live h st [] = (st, [], h).
Proof. by destruct st. Qed.

(** Handling [evs1 ++ evs2] is handling [evs1], then [evs2] from where
    that left the session. *)
Lemma loop_app self users c live evs1 evs2 : forall (h : heap Embed) st,
  loop self users c live h st (evs1 ++ evs2)
  = let r1 := loop self users c live h st evs1 in
    let r2 := loop self users c live r1.2 r1.1.1 evs2 in
    (r2.1.1, r1.1.2 ++ r2.1.2, r2.2).
Proof.
  induction evs1 as [|ev evs1 IH]; intros h st.
  { rewrite loop_nil. cbn.
    by destruct (loop self users c live h st evs2) as [[st' acts] h']. }
  destruct st as [current| |err].
  2,3: by rewrite !loop_done by done; cbn; rewrite loop_done by done.
  cbn [app loop].
  destruct (step self users c live h current ev) as [[st1 acts1] h1].
  rewrite IH. cbn zeta.
  destruct (loop self users c live h1 st1 evs1) as [[st2 acts2] h2].
  cbn [fst snd].
  destruct (loop self users c live h2 st2 evs2) as [[st3 acts3] h3].
  cbn [fst snd]. by rewrite app_assoc.
Qed.

(** What every round keeps, every sequence of rounds keeps. *)
Lemma loop_invariant self users c live
    (I : heap Embed -> Prop) (P : Action -> Prop) :
  (forall h current ev,
     I h ->
     I (step self users c live h current ev).2 /\
     Forall P (step self users c live h current ev).1.2) ->
  forall evs h st,
    I h ->
    I (loop self users c live h st evs).2 /\
    Forall P (loop self users c live h st evs).1.2.
Proof.
  intros Hstep. induction evs as [|ev evs IH]; intros h st Hh.
  { rewrite loop_nil. by split. }
  destruct st as [current| |err]; [|by split..].
  cbn [loop]. destruct (Hstep h current ev Hh) as [Hh1 Hacts1].
  destruct (step self users c live h current ev) as [[st1 acts1] h1].
  cbn [fst snd] in *. destruct (IH h1 st1 Hh1) as [Hh2 Hacts2].
  destruct (loop self users c live h1 st1 evs) as [[st2 acts2] h2].
  cbn [fst snd] in *. split; [done|]. by apply Forall_app.
Qed.

(** Reactions that fail [check] pass without a trace. *)
Lemma loop_rejected self users c live (h : heap Embed) current evs :
  Forall (fun ev => exists r u,
            ev = ReactionAdd r u /\
            check live (control_emojis self) users r u = false) evs ->
  loop self users c live h (Active current) evs = (Active current, [], h).
Proof.
  induction 1 as [|ev evs (r & u & -> & Hcheck) _ IH]; [done|].
  cbn [loop step]. rewrite Hcheck. by rewrite IH.
Qed.

(** *** Rounds *)

(** The formatter leaves the store it is given in place. *)
Lemma formatted_pages_keeps (self_pages : list loc) (h : heap Embed) out h' :
  formatted_pages self_pages h = Some (out, h') -> keeps h h'.
Proof.
  unfold formatted_pages, deepcopy.
  destruct (deepcopy_memo ∅ self_pages h) as [pages h1] eqn:Hcopy.
  destruct (deepcopy_memo_fresh (length h) _ _ _ _ _ (le_n _)
              (map_Forall_empty _) Hcopy) as (_ & Hpre & Hfresh).
  destruct (format_loop_frame pages pages h1) as (h2 & Hrun & _ & Hframe).
  { by apply Forall_forall. }
  rewrite Hrun. cbn [mbind option_bind]. intros [= <- <-] r e Hr.
  rewrite Hframe; [by eapply prefix_lookup_Some|].
  intros Hin. rewrite Forall_forall in Hfresh.
  apply Hfresh in Hin. apply lookup_lt_Some in Hr. lia.
Qed.

(** A round works on the live message only, sends nothing, adds no
    control, and keeps its hands off reactions where the channel does
    not manage them. *)
Lemma step_actions self users c live (h : heap Embed) current ev :
  Forall (fun a =>
            target a = Some live /\
            sets_up a = false /\
            (manages_reactions c = false -> takes_reactions a = false))
    (step self users c live h current ev).1.2.
Proof.
  destruct ev as [r u|]; cbn [step].
  - destruct (check _ _ _ _ _); [|by constructor].
    destruct (load_page_index _ _ _ _); [|by repeat constructor].
    destruct (formatted_pages _ _) as [[formatted h']|]; [|by constructor].
    destruct (getitem formatted _); [|by constructor].
    destruct (manages_reactions c); by repeat constructor.
  - destruct (manages_reactions c); by repeat constructor.
Qed.

Lemma step_keeps self users c live (h : heap Embed) current ev :
  keeps h (step self users c live h current ev).2.
Proof.
  destruct ev as [r u|]; cbn [step]; [|by intros ? ?].
  destruct (check _ _ _ _ _); [|by intros ? ?].
  destruct (load_page_index _ _ _ _); [|by intros ? ?].
  destruct (formatted_pages _ _) as [[formatted h']|] eqn:Hf; [|by intros ? ?].
  apply formatted_pages_keeps in Hf.
  by destruct (getitem formatted _).
Qed.

(** Reading a list by a Python index reads one of its positions. *)
Lemma getitem_lookup {T} (l : list T) (i : Z) x :
  getitem l i = Some x -> exists n, l !! n = Some x.
Proof.
  unfold getitem. repeat case_bool_decide; [by eexists..|done].
Qed.

(** Over distinct pages, what a round puts on display is one of the
    caller's pages with the footer of its own position. [h0] is the
    store [run] was called in. *)
Lemma step_shows self users c live (h0 h : heap Embed) current ev :
  NoDup (pages self) ->
  Forall (fun page => page < length h0) (pages self) ->
  keeps h0 h ->
  Forall (fun a =>
            forall e, shown a = Some e ->
            exists i page,
              pages self !! i = Some page /\
              e = annotated i (length (pages self)) (deref h0 page))
    (step self users c live h current ev).1.2.
Proof.
  intros Hnd Hvalid Hkeep.
  assert (Hvalid' : Forall (fun page => page < length h) (pages self)).
  { eapply Forall_impl; [exact Hvalid|]. cbn. intros page Hpage.
    destruct (lookup_lt_is_Some_2 h0 page Hpage) as [e He].
    apply Hkeep in He. by eapply lookup_lt_Some. }
  destruct ev as [r u|]; cbn [step].
  2: { destruct (manages_reactions c); by repeat constructor. }
  destruct (check _ _ _ _ _); [|by constructor].
  destruct (load_page_index _ _ _ _) as [load|]; [|by repeat constructor].
  destruct (formatted_pages_distinct (pages self) h Hnd Hvalid')
    as (formatted & h' & -> & Hlen & Hann).
  destruct (getitem formatted load) as [copy|] eqn:Hget; [|by constructor].
  cbn [fst snd]. constructor.
  - cbn [shown]. intros e [= <-].
    destruct (getitem_lookup _ _ _ Hget) as [n Hn].
    destruct (lookup_lt_is_Some_2 (pages self) n) as [page Hpage].
    { rewrite <- Hlen. by eapply lookup_lt_Some. }
    destruct (Hann n page Hpage) as (copy' & Hcopy' & Hshown).
    assert (copy' = copy) as -> by congruence.
    exists n, page. split; [done|].
    rewrite (deref_lookup _ _ _ Hshown). f_equal.
    rewrite Forall_forall in Hvalid.
    destruct (lookup_lt_is_Some_2 h0 page) as [e0 He0].
    { apply Hvalid. by eapply list_elem_of_lookup_2. }
    rewrite (deref_lookup _ _ _ He0). apply deref_lookup. by apply Hkeep.
  - destruct (manages_reactions c); by repeat constructor.
Qed.

(** *** The whole call *)

(** [run] with a channel and two pages or more: the setup, then the
    loop. *)
Lemma run_multi self (h : heap Embed) users channel c sent_id :
  resolve_channel channel (self_message self) = inr c ->
  1 < length (pages self) ->
  exists formatted h1 page,
    formatted_pages (pages self) h = Some (formatted, h1) /\
    getitem formatted 0 = Some page /\
    forall evs,
      let live := {| id := sent_id; channel := c |} in
      let r := loop self users c live h1 (Active 0) evs in
      run self h users channel sent_id evs
      = {| final := r.1.1;
           log := Send c (deref h1 page)
                  :: (AddReaction live <$> emojis (control_emojis self))
                  ++ r.1.2;
           live_message := Some live; store := r.2 |}.
Proof.
  intros Hc Hlen.
  destruct (formatted_pages_returns (pages self) h)
    as (formatted & h1 & Hf & Hflen).
  destruct (getitem_in_range formatted 0) as [page Hpage]; [lia|].
  exists formatted, h1, page. split_and!; [done..|].
  intros evs live r. unfold run. rewrite Hc.
  destruct (getitem_in_range (pages self) 0) as [_embed ->]; [lia|].
  rewrite bool_decide_eq_false_2 by lia. rewrite Hf, Hpage.
  subst r live.
  by destruct (loop self users c _ h1 (Active 0) evs) as [[st acts] h2].
Qed.

(** The three ways a call with a channel can go, by the number of
    pages. *)
Lemma run_cases self (h : heap Embed) users channel c sent_id evs :
  resolve_channel channel (self_message self) = inr c ->
  (pages self = [] /\
   run self h users channel sent_id evs
   = {| final := Raised IndexError; log := [];
        live_message := self_message self; store := h |}) \/
  (exists page,
     pages self = [page] /\
     run self h users channel sent_id evs
     = {| final := Closed; log := [Send c (deref h page)];
          live_message := Some {| id := sent_id; channel := c |};
          store := h |}) \/
  1 < length (pages self).
Proof.
  intros Hc. destruct (pages self) as [|page [|page' rest]] eqn:Hpages.
  - left. split; [done|]. unfold run. by rewrite Hc, Hpages.
  - right; left. exists page. split; [done|]. unfold run.
    by rewrite Hc, Hpages.
  - right; right. cbn. lia.
Qed.

(** X9: a call with a channel and at least one page sends exactly one
    message, first of all. With two pages or more the five control
    emojis are added to it next, in the order of the tuple, before any
    event is handled; everything after works on the message just sent
    and neither sends nor adds a control. With one page nothing
    follows the send. *)
Theorem run_setup self (h : heap Embed) users channel c sent_id evs :
  let live := {| id := sent_id; channel := c |} in
  resolve_channel channel (self_message self) = inr c ->
  pages self <> [] ->
  exists e acts,
    log (run self h users channel sent_id evs)
    = Send c e
      :: (if bool_decide (length (pages self) = 1) then []
          else AddReaction live <$> emojis (control_emojis self))
      ++ acts /\
    Forall (fun a => target a = Some live /\ sets_up a = false) acts /\
    (length (pages self) = 1 -> acts = []) /\
    live_message (run self h users channel sent_id evs) = Some live.
Proof.
  intros live Hc Hpages.
  destruct (run_cases self h users channel c sent_id evs Hc)
    as [[Hnil _]|[(page & Hone & ->)|Hlen]]; [done| |].
  - rewrite Hone. exists (deref h page), []. by split_and!.
  - destruct (run_multi self h users channel c sent_id Hc Hlen)
      as (formatted & h1 & page & _ & _ & ->).
    cbn [log live_message]. rewrite bool_decide_eq_false_2 by lia.
    eexists _, _. split_and!; [done | | lia | done].
    eapply Forall_impl.
    + apply (loop_invariant self users c live (fun _ => True)); [|done].
      intros h' current ev _. split; [done|]. apply step_actions.
    + by intros a (? & ? & _).
Qed.

Lemma run_setup_witness :
  let c := {| channel_id := 1; kind := TextChannel |} in
  let live := {| id := 7; channel := c |} in
  let self := {| pages := [0; 1]; self_message := None;
                 control_emojis := default_control_emojis |} in
  exists e acts,
    log (run self [inhabitant; inhabitant] [] (Some c) 7 [Timeout])
    = Send c e
      :: (if bool_decide (length (pages self) = 1) then []
          else AddReaction live <$> emojis (control_emojis self))
      ++ acts /\
    Forall (fun a => target a = Some live /\ sets_up a = false) acts /\
    (length (pages self) = 1 -> acts = []) /\
    live_message (run self [inhabitant; inhabitant] [] (Some c) 7 [Timeout])
    = Some live.
Proof.
  intros c live self.
  apply (run_setup self [inhabitant; inhabitant] [] (Some c) c 7 [Timeout]);
    [reflexivity | discriminate].
Defined.

(** X10: in a direct or a group channel the session takes no reaction
    off the message: whatever the events, the log holds neither a
    removal of a reaction nor a clearing of the reactions. *)
Theorem run_direct_channel self (h : heap Embed) users channel c sent_id evs :
  resolve_channel channel (self_message self) = inr c ->
  manages_reactions c = false ->
  Forall (fun a => takes_reactions a = false)
    (log (run self h users channel sent_id evs)).
Proof.
  intros Hc Hkind.
  destruct (run_cases self h users channel c sent_id evs Hc)
    as [[_ ->]|[(page & _ & ->)|Hlen]];
    [by constructor | by repeat constructor |].
  destruct (run_multi self h users channel c sent_id Hc Hlen)
    as (formatted & h1 & page & _ & _ & ->).
  cbn [log]. constructor; [done|]. apply Forall_app. split.
  - apply Forall_fmap. by apply Forall_true.
  - eapply Forall_impl.
    + apply (loop_invariant self users c _ (fun _ => True)); [|done].
      intros h' current ev _. split; [done|]. apply step_actions.
    + intros a (_ & _ & Hno). by apply Hno.
Qed.

Lemma run_direct_channel_witness :
  let c := {| channel_id := 1; kind := DMChannel |} in
  let live := {| id := 7; channel := c |} in
  let u := {| user_id := 3 |} in
  let self := {| pages := [0; 1]; self_message := None;
                 control_emojis := default_control_emojis |} in
  Forall (fun a => takes_reactions a = false)
    (log (run self [inhabitant; inhabitant] [u] (Some c) 7
            [ReactionAdd {| message := live; emoji := "▶" |} u; Timeout])).
Proof.
  intros c live u self.
  apply (run_direct_channel self [inhabitant; inhabitant] [u] (Some c) c 7);
    reflexivity.
Defined.

(** X12: a timeout while the session waits ends the call: the reactions
    are cleared where the channel manages them and nothing else is
    done; the message is neither edited nor deleted and the store is
    not touched. *)
Theorem run_timeout self (h : heap Embed) users channel c sent_id evs
    current :
  let live := {| id := sent_id; channel := c |} in
  resolve_channel channel (self_message self) = inr c ->
  final (run self h users channel sent_id evs) = Active current ->
  run self h users channel sent_id (evs ++ [Timeout])
  = {| final := Closed;
       log := log (run self h users channel sent_id evs)
              ++ (if manages_reactions c then [ClearReactions live] else []);
       live_message := live_message (run self h users channel sent_id evs);
       store := store (run self h users channel sent_id evs) |}.
Proof.
  intros live Hc Hactive.
  destruct (run_cases self h users channel c sent_id evs Hc)
    as [[_ Hrun]|[(page & _ & Hrun)|Hlen]];
    [by rewrite Hrun in Hactive..|].
  destruct (run_multi self h users channel c sent_id Hc Hlen)
    as (formatted & h1 & page & _ & _ & Hrun).
  rewrite Hrun in Hactive. rewrite !Hrun. cbn [final] in Hactive.
  cbn zeta. cbn [final log live_message store].
  rewrite loop_app. cbn zeta.
  destruct (loop self users c _ h1 (Active 0) evs) as [[st acts] h2].
  cbn [fst snd] in *. subst st. cbn [loop step fst snd].
  rewrite app_nil_r. subst live. by f_equal.
Qed.

Lemma run_timeout_witness :
  let c := {| channel_id := 1; kind := TextChannel |} in
  let live := {| id := 7; channel := c |} in
  let u := {| user_id := 3 |} in
  let self := {| pages := [0; 1]; self_message := None;
                 control_emojis := default_control_emojis |} in
  let next := ReactionAdd {| message := live; emoji := "▶" |} u in
  let before := run self [inhabitant; inhabitant] [u] (Some c) 7 [next] in
  run self [inhabitant; inhabitant] [u] (Some c) 7 ([next] ++ [Timeout])
  = {| final := Closed;
       log := log before ++ [ClearReactions live];
       live_message := live_message before;
       store := store before |}.
Proof.
  intros c live u self next before.
  apply (run_timeout self [inhabitant; inhabitant] [u] (Some c) c 7 [next] 1);
    reflexivity.
Defined.

(** X13: [run] never changes an embed of the caller: every object of
    the store it is called in is there afterwards, as it was, whatever
    the events and however the call ends. *)
Theorem run_keeps_store self (h : heap Embed) users channel sent_id evs :
  keeps h (store (run self h users channel sent_id evs)).
Proof.
  destruct (resolve_channel channel (self_message self)) as [err|c] eqn:Hc.
  { unfold run. rewrite Hc. by intros r e. }
  destruct (run_cases self h users channel c sent_id evs Hc)
    as [[_ ->]|[(page & _ & ->)|Hlen]]; [by intros r e..|].
  destruct (run_multi self h users channel c sent_id Hc Hlen)
    as (formatted & h1 & page & Hf%formatted_pages_keeps & _ & ->).
  cbn [store].
  apply (loop_invariant self users c _ (keeps h) (fun _ => True)); [|done].
  intros h' current ev Hh'. split; [|by apply Forall_true].
  intros r e Hr. by apply step_keeps, Hh'.
Qed.

(** X14: over pairwise distinct pages and with two pages or more, every
    embed the call puts on display, in the message it sends and in
    every edit, is one of the caller's pages with the footer of its
    own position once: markers do not pile up from round to round. *)
Theorem run_shows_pages self (h : heap Embed) users channel c sent_id evs :
  NoDup (pages self) ->
  Forall (fun page => page < length h) (pages self) ->
  resolve_channel channel (self_message self) = inr c ->
  1 < length (pages self) ->
  Forall (fun a =>
            forall e, shown a = Some e ->
            exists i page,
              pages self !! i = Some page /\
              e = annotated i (length (pages self)) (deref h page))
    (log (run self h users channel sent_id evs)).
Proof.
  intros Hnd Hvalid Hc Hlen.
  destruct (run_multi self h users channel c sent_id Hc Hlen)
    as (formatted & h1 & copy & Hf & Hget & ->).
  cbn [log].
  destruct (formatted_pages_distinct (pages self) h Hnd Hvalid)
    as (out & h' & Hrun & Hflen & Hann).
  rewrite Hf in Hrun. injection Hrun as <- <-.
  constructor; [|apply Forall_app; split].
  - cbn [shown]. intros e [= <-].
    destruct (getitem_lookup _ _ _ Hget) as [n Hn].
    destruct (lookup_lt_is_Some_2 (pages self) n) as [page Hpage].
    { rewrite <- Hflen. by eapply lookup_lt_Some. }
    destruct (Hann n page Hpage) as (copy' & Hcopy' & Hshown).
    assert (copy' = copy) as -> by congruence.
    exists n, page. by rewrite (deref_lookup _ _ _ Hshown).
  - apply Forall_fmap. by apply Forall_true.
  - apply (loop_invariant self users c _ (keeps h)).
    + intros h2 current ev Hh2. split.
      * intros r e Hr. by apply step_keeps, Hh2.
      * by apply step_shows.
    + by eapply formatted_pages_keeps.
Qed.

Lemma run_shows_pages_witness :
  let c := {| channel_id := 1; kind := TextChannel |} in
  let live := {| id := 7; channel := c |} in
  let u := {| user_id := 3 |} in
  let self := {| pages := [0; 1]; self_message := None;
                 control_emojis := default_control_emojis |} in
  let next := ReactionAdd {| message := live; emoji := "▶" |} u in
  Forall (fun a =>
            forall e, shown a = Some e ->
            exists i page,
              [0; 1] !! i = Some page /\
              e = annotated i 2 (deref [inhabitant; inhabitant] page))
    (log (run self [inhabitant; inhabitant] [u] (Some c) 7 [next; next])).
Proof.
  intros c live u self next.
  apply (run_shows_pages self [inhabitant; inhabitant] [u] (Some c) c 7
           [next; next]).
  - apply NoDup_cons. split; [|apply NoDup_singleton].
    intros Hin%list_elem_of_singleton. discriminate.
  - repeat constructor.
  - reflexivity.
  - cbn. lia.
Defined.

(** X15: whatever the events, a session that [run] leaves waiting is at
    an index within the pages, and the list accesses of the call stay
    within their lists: [pages.index(page)] always finds the page, so
    that the call never ends in a [ValueError], and it ends in an
    [IndexError] exactly when it has a channel and [self.pages] is
    empty, through [self.pages[0]] and never through
    [self.formatted_pages[load_page_index]]. *)
Theorem run_index_in_range self (h : heap Embed) users channel sent_id evs :
  (forall current,
     final (run self h users channel sent_id evs) = Active current ->
     (0 <= current <= Z.of_nat (length (pages self)) - 1)%Z) /\
  final (run self h users channel sent_id evs) <> Raised ValueError /\
  (final (run self h users channel sent_id evs) = Raised IndexError <->
   pages self = [] /\
   exists c, resolve_channel channel (self_message self) = inr c).
Proof.
  destruct (resolve_channel channel (self_message self)) as [err|c] eqn:Hc.
  { assert (err = TypeError) as ->.
    { by destruct channel, (self_message self); try injection Hc as <-. }
    unfold run. rewrite Hc. cbn [final]. split_and!; [done..|].
    split; [done|]. by intros (_ & c & [=]). }
  destruct (pages self) as [|page rest] eqn:Hpages.
  { unfold run. rewrite Hc, Hpages. cbn [getitem final].
    split_and!; [done..|]. split; [|done]. intros _. split; [done|].
    by exists c. }
  pose proof (run_resolved_in_range self h users channel c sent_id evs Hc)
    as Hrange.
  rewrite Hpages in Hrange. specialize (Hrange ltac:(done)).
  destruct (final (run self h users channel sent_id evs))
    as [current| |err']; [| |done].
  - split_and!; [by intros ? [= <-] | done |].
    split; [done|]. by intros [[=] _].
  - split_and!; [done..|]. split; [done|]. by intros [[=] _].
Qed.

(** Reactions that fail [check] can be dropped from the events. *)
Lemma run_skip self (h : heap Embed) users channel c sent_id
    evs1 rejected evs2 :
  resolve_channel channel (self_message self) = inr c ->
  Forall (fun ev => exists r u,
            ev = ReactionAdd r u /\
            check {| id := sent_id; channel := c |} (control_emojis self)
              users r u = false) rejected ->
  run self h users channel sent_id (evs1 ++ rejected ++ evs2)
  = run self h users channel sent_id (evs1 ++ evs2).
Proof.
  intros Hc Hrej.
  destruct (run_cases self h users channel c sent_id evs1 Hc)
    as [[Hnil _]|[(page & Hone & _)|Hlen]].
  - unfold run. by rewrite Hc, Hnil.
  - unfold run. by rewrite Hc, Hone.
  - destruct (run_multi self h users channel c sent_id Hc Hlen)
      as (formatted & h1 & page & _ & _ & Hrun).
    rewrite !Hrun. cbn zeta. rewrite !loop_app. cbn zeta.
    destruct (loop self users c _ h1 (Active 0) evs1) as [[st acts] h2].
    cbn [fst snd].
    destruct st as [current| |err]; [|by rewrite !loop_done by done..].
    rewrite (loop_app _ _ _ _ rejected evs2). cbn zeta.
    rewrite (loop_rejected _ _ _ _ _ _ _ Hrej). cbn [fst snd app].
    by destruct (loop self users c _ h2 (Active current) evs2)
      as [[st acts'] h3].
Qed.

(** X16: a reaction with an emoji that is no control, or by a user who
    is not among the permitted ones when there are any, or on another
    message than the one sent, can be dropped from the events without
    any change to what the call does: not to the log, not to where the
    session ends, not to the store. *)
Theorem run_skips_rejected self (h : heap Embed) users channel c sent_id
    evs1 rejected evs2 :
  resolve_channel channel (self_message self) = inr c ->
  Forall (fun ev => exists r u,
            ev = ReactionAdd r u /\
            (emoji r ∉ emojis (control_emojis self) \/
             (users <> [] /\ user_id u ∉ (user_id <$> users)) \/
             id (message r) <> sent_id)) rejected ->
  run self h users channel sent_id (evs1 ++ rejected ++ evs2)
  = run self h users channel sent_id (evs1 ++ evs2).
Proof.
  intros Hc Hrej. apply (run_skip self h users channel c); [done|].
  eapply Forall_impl; [exact Hrej|]. intros ev (r & u & -> & Hwhy).
  exists r, u. split; [done|]. by apply check_rejects.
Qed.

Lemma run_skips_rejected_witness :
  let c := {| channel_id := 1; kind := TextChannel |} in
  let live := {| id := 7; channel := c |} in
  let u := {| user_id := 3 |} in
  let self := {| pages := [0; 1]; self_message := None;
                 control_emojis := default_control_emojis |} in
  let next := ReactionAdd {| message := live; emoji := "▶" |} u in
  let stranger :=
    ReactionAdd {| message := live; emoji := "▶" |} {| user_id := 4 |} in
  run self [inhabitant; inhabitant] [u] (Some c) 7
    ([next] ++ [stranger] ++ [Timeout])
  = run self [inhabitant; inhabitant] [u] (Some c) 7 ([next] ++ [Timeout]).
Proof.
  intros c live u self next stranger.
  apply (run_skips_rejected self [inhabitant; inhabitant] [u] (Some c) c 7
           [next] [stranger] [Timeout]); [reflexivity|].
  constructor; [|constructor]. eexists _, _. split; [reflexivity|].
  right; left. split; [done|]. cbn.
  rewrite not_elem_of_cons. split; [done | apply not_elem_of_nil].
Defined.

End SessionTrace.

(** ** Navigation there and back *)

Module Navigation.

(** X17: with five distinct control emojis and the session within the
    pages, [next] followed by [previous] leads back to the index the
    session was at unless it was at the last page, and [previous]
    followed by [next] leads back unless it was at the first. *)
Theorem next_previous_round_trip controls current max_index :
  NoDup (emojis controls) ->
  (0 <= current <= max_index)%Z ->
  ((current < max_index)%Z ->
   load_page_index controls (control2 controls) current max_index
   ≫= (fun load =>
         load_page_index controls (control1 controls) load max_index)
   = Some current) /\
  ((0 < current)%Z ->
   load_page_index controls (control1 controls) current max_index
   ≫= (fun load =>
         load_page_index controls (control2 controls) load max_index)
   = Some current).
Proof.
  intros Hnd Hrange. unfold emojis in Hnd.
  rewrite !NoDup_cons, !not_elem_of_cons in Hnd.
  destruct Hnd as ((H01 & H02 & _) & (H12 & _) & _).
  unfold load_page_index.
  split; intros Hcur; repeat (case_bool_decide; try done; cbn);
    try congruence; f_equal; lia.
Qed.

Lemma next_previous_round_trip_witness :
  load_page_index default_control_emojis "▶" 1 2
  ≫= (fun load => load_page_index default_control_emojis "◀" load 2)
  = Some 1%Z.
Proof.
  assert (Hnd : NoDup (emojis default_control_emojis)).
  { unfold emojis. cbn. rewrite !NoDup_cons, !not_elem_of_cons.
    split_and!; try done; try apply not_elem_of_nil. apply NoDup_nil_2. }
  destruct (next_previous_round_trip default_control_emojis 1%Z 2%Z Hnd
              ltac:(lia)) as [Hnext _].
  exact (Hnext ltac:(lia)).
Defined.

End Navigation.

(** ** The bot paginator *)

Module BotFacts.
Import Trace SessionFacts SessionTrace.

(** X18: [BotEmbedPaginator.run] always has a channel: the one passed,
    else the channel of the message the paginator was built with, else
    the channel of the command. It is the inherited [run] on that
    channel, with the command's author as the only permitted user
    when no users are passed, and it never ends in the [TypeError] of
    a missing channel. *)
Theorem bot_run_channel (self : Bot.BotEmbedPaginator) (h : heap Embed)
    channel users sent_id evs :
  let c :=
    match channel, self_message (Bot.super self) with
    | Some c, _ => c
    | None, Some m => Session.channel m
    | None, None => Bot.channel (Bot._ctx self)
    end in
  let permitted :=
    match users with
    | Some users => users
    | None => [Bot.author (Bot._ctx self)]
    end in
  Bot.run self h channel users sent_id evs
  = run (Bot.super self) h permitted (Some c) sent_id evs /\
  final (Bot.run self h channel users sent_id evs) <> Raised TypeError.
Proof.
  intros c permitted.
  assert (Hrun : Bot.run self h channel users sent_id evs
                 = run (Bot.super self) h permitted (Some c) sent_id evs).
  { unfold Bot.run, run. subst c permitted.
    by destruct channel, (self_message (Bot.super self)), users. }
  rewrite Hrun. split; [done|].
  by eapply run_resolved_no_type_error.
Qed.

Lemma bot_run_channel_witness :
  let there := {| channel_id := 1; kind := TextChannel |} in
  let here := {| channel_id := 2; kind := TextChannel |} in
  let m := {| id := 5; channel := there |} in
  let ctx := {| Bot.author := {| user_id := 3 |}; Bot.channel := here |} in
  let base := {| pages := [0; 1]; self_message := Some m;
                 control_emojis := default_control_emojis |} in
  let self := {| Bot._ctx := ctx; Bot.super := base |} in
  Bot.run self [inhabitant; inhabitant] None None 7 [Timeout]
  = run base [inhabitant; inhabitant] [{| user_id := 3 |}] (Some there) 7
      [Timeout] /\
  final (Bot.run self [inhabitant; inhabitant] None None 7 [Timeout])
  <> Raised TypeError.
Proof.
  intros there here m ctx base self.
  exact (bot_run_channel self [inhabitant; inhabitant] None None 7 [Timeout]).
Defined.

(** X19: called without users, the bot paginator listens to the author
    of the command only: reactions of users with another id can be
    dropped from the events without any change to what the call
    does. *)
Theorem bot_run_author_only (self : Bot.BotEmbedPaginator) (h : heap Embed)
    channel sent_id evs1 others evs2 :
  Forall (fun ev => exists r u,
            ev = ReactionAdd r u /\
            user_id u <> user_id (Bot.author (Bot._ctx self))) others ->
  Bot.run self h channel None sent_id (evs1 ++ others ++ evs2)
  = Bot.run self h channel None sent_id (evs1 ++ evs2).
Proof.
  intros Hothers. unfold Bot.run.
  set (channel' := match self_message (Bot.super self), channel with
                   | None, None => Some (Bot.channel (Bot._ctx self))
                   | _, _ => channel
                   end).
  destruct (resolve_channel channel' (self_message (Bot.super self)))
    as [err|c] eqn:Hc.
  { unfold run. by rewrite Hc. }
  apply (run_skip _ _ _ _ c); [done|].
  eapply Forall_impl; [exact Hothers|]. intros ev (r & u & -> & Hu).
  exists r, u. split; [done|]. apply check_rejects.
  right; left. split; [done|]. cbn.
  rewrite not_elem_of_cons. split; [done | apply not_elem_of_nil].
Qed.

Lemma bot_run_author_only_witness :
  let here := {| channel_id := 2; kind := TextChannel |} in
  let live := {| id := 7; channel := here |} in
  let author := {| user_id := 3 |} in
  let ctx := {| Bot.author := author; Bot.channel := here |} in
  let base := {| pages := [0; 1]; self_message := None;
                 control_emojis := default_control_emojis |} in
  let self := {| Bot._ctx := ctx; Bot.super := base |} in
  let next u := ReactionAdd {| message := live; emoji := "▶" |} u in
  Bot.run self [inhabitant; inhabitant] None None 7
    ([next author] ++ [next {| user_id := 4 |}] ++ [Timeout])
  = Bot.run self [inhabitant; inhabitant] None None 7
      ([next author] ++ [Timeout]).
Proof.
  intros here live author ctx base self next.
  apply (bot_run_author_only self [inhabitant; inhabitant] None 7
           [next author] [next {| user_id := 4 |}] [Timeout]).
  constructor; [|constructor]. eexists _, _. split; [reflexivity|].
  discriminate.
Defined.

End BotFacts.

(** ** The chunker: the sublists as slices *)

Module ChunkerSlices.
Import Chunker ChunkerFacts ChunkerShape.

Section slices.
Context {A : Type}.

(** Chunks of one length that, with a shorter rest, make up a list are
    its consecutive slices. *)
Lemma concat_fixed_lookup n (cs : list (list A)) : forall (rest l : list A),
  Forall (fun c => length c = n) cs ->
  length rest <= n ->
  concat cs ++ rest = l ->
  forall i c, (cs ++ [rest]) !! i = Some c -> c = take n (drop (i * n) l).
Proof.
  induction cs as [|c0 cs IH]; intros rest l Hcs Hrest Hl i c Hi.
  - cbn in Hl. subst l. destruct i as [|i]; cbn in Hi; [|done].
    injection Hi as <-. cbn. by rewrite take_ge.
  - apply Forall_cons in Hcs as [Hc0 Hcs]. cbn in Hl. subst l.
    destruct i as [|i]; cbn in Hi.
    + injection Hi as <-. rewrite Nat.mul_0_l, drop_0, <- app_assoc.
      by rewrite take_app_length' by done.
    + rewrite <- app_assoc.
      replace (S i * n) with (length c0 + i * n) by lia.
      rewrite <- drop_drop, drop_app_length.
      by eapply IH.
Qed.

(** X20: for a chunk size of one or more, sublist [i] of the result is
    the slice [items[i*max_len : (i+1)*max_len]] of the list as it was
    before the call. *)
Theorem generate_sub_lists_slices (h : heap (list A)) r (items : list A) k :
  h !! r = Some items -> (1 <= k)%Z ->
  exists subs h',
    generate_sub_lists (length items) h r k = Some (subs, h') /\
    forall i c,
      contents h' subs !! i = Some c ->
      c = take (Z.to_nat k) (drop (i * Z.to_nat k) items).
Proof.
  intros Hr Hk. rewrite generate_sub_lists_loop.
  destruct (chunk_loop_terminates k Hk (length items) r [] h items Hr)
    as [[res h'] Hrun]; [done|].
  destruct (chunk_loop_layout _ _ _ _ _ _ _ _ Hr Hrun)
    as (m & final & -> & Hlen & Hfin & Hpos).
  destruct (Hpos Hk) as (Hchunks & _ & Hle & _).
  destruct (chunk_loop_returns _ _ _ _ _ _ _ _ Hr Hrun)
    as (new & final' & Hres & Hfin' & _ & Hcat & _).
  assert (final' = final) as -> by congruence.
  cbn [app] in Hres. apply app_inj_tail in Hres as [<- _].
  exists (seq (length h) m ++ [r]), h'. split; [done|].
  intros i c Hi. unfold contents in *.
  rewrite fmap_app, fmap_cons, fmap_nil, (deref_lookup _ _ _ Hfin) in Hi.
  eapply concat_fixed_lookup; [| exact Hle | exact Hcat | exact Hi].
  apply Forall_fmap, Forall_forall. intros s Hs%elem_of_seq. cbn.
  destruct (Hchunks (s - length h) ltac:(lia)) as (c' & Hc' & Hclen).
  replace (length h + (s - length h)) with s in Hc' by lia.
  by rewrite (deref_lookup _ _ _ Hc').
Qed.
End slices.

Lemma generate_sub_lists_slices_witness :
  exists subs h',
    generate_sub_lists 5 [[1; 2; 3; 4; 5]] 0 2%Z = Some (subs, h') /\
    forall i c,
      contents h' subs !! i = Some c ->
      c = take (Z.to_nat 2) (drop (i * Z.to_nat 2) [1; 2; 3; 4; 5]).
Proof.
  apply (generate_sub_lists_slices [[1; 2; 3; 4; 5]] 0 [1; 2; 3; 4; 5] 2%Z).
  - reflexivity.
  - lia.
Defined.

End ChunkerSlices.

(** ** Rounds that navigate *)

Module Rounds.
Import Trace SessionFacts.

(** X21: a reaction that passes [check] with one of the first four
    controls, in a session within the pages, always redraws: the
    message is edited once, also when the index stays where it was
    at the first or the last page, and in a channel that manages
    reactions the reaction that asked for it is taken off again. *)
Theorem accepted_navigation_redraws self users c live (h : heap Embed)
    current r u load :
  (0 <= current <= Z.of_nat (length (pages self)) - 1)%Z ->
  check live (control_emojis self) users r u = true ->
  load_page_index (control_emojis self) (emoji r) current
    (Z.of_nat (length (pages self)) - 1) = Some load ->
  exists e h',
    step self users c live h current (ReactionAdd r u)
    = (Active load,
       Edit live e
       :: (if manages_reactions c then [RemoveReaction live r u] else []),
       h').
Proof.
  intros Hrange Hcheck Hload. cbn [step]. rewrite Hcheck, Hload.
  pose proof (load_page_index_range _ _ _ _ _ Hrange Hload) as Hin.
  destruct (formatted_pages_returns (pages self) h)
    as (formatted & h' & -> & Hlen).
  destruct (getitem_in_range formatted load) as [page ->]; [lia|].
  by eexists _, _.
Qed.

Lemma accepted_navigation_redraws_witness :
  let c := {| channel_id := 1; kind := TextChannel |} in
  let live := {| id := 7; channel := c |} in
  let u := {| user_id := 3 |} in
  let self := {| pages := [0; 1]; self_message := None;
                 control_emojis := default_control_emojis |} in
  let r := {| message := live; emoji := "◀" |} in
  exists e h',
    step self [u] c live [inhabitant; inhabitant] 0 (ReactionAdd r u)
    = (Active 0%Z, [Edit live e; RemoveReaction live r u], h').
Proof.
  intros c live u self r.
  apply (accepted_navigation_redraws self [u] c live [inhabitant; inhabitant]
           0%Z r u 0%Z); [cbn; lia | reflexivity | reflexivity].
Defined.

End Rounds.
